(** * Session layer of src/main.js (Classic Q Interface)

    A shallow embedding of the Electron main process' session manager:
    the executable locator [findQCliPath], the session registry
    [sessions], the IPC handlers [create-session], [send-to-q],
    [kill-session], [close-app], the per-process listeners installed by
    [create-session], and the window life-cycle hooks that tear the
    sessions down.

    The JavaScript runtime pieces the handlers rely on (strings as
    sequences of UTF-16 code units, [String.prototype.trim],
    [Number.prototype.toString], [Buffer.prototype.toString], the
    prompt regular expression, [Map]) are modelled in module [Js]. *)

From Stdlib Require Import List NArith ZArith Bool Ascii String Lia.
From Stdlib Require Import DecimalString DecimalPos DecimalZ.
Import ListNotations.

Set Implicit Arguments.

(* ================================================================= *)
(** ** The JavaScript runtime *)

Module Js.

Local Open Scope N_scope.

(** A JavaScript string is a finite sequence of UTF-16 code units. *)
Definition str : Type := list N.

(** A source literal made of ASCII characters. *)
Definition lit (s : string) : str :=
  map N_of_ascii (list_ascii_of_string s).

(** ['\r'] and ['\n']. *)
Definition CR : str := [13].
Definition LF : str := [10].

(** [a + b] on strings. *)
Definition cat (a b : str) : str := a ++ b.

Definition eqb (a b : str) : bool :=
  if list_eq_dec N.eq_dec a b then true else false.

(** Truthiness of a string value: only the empty string is falsy. *)
Definition truthy (s : str) : bool :=
  match s with [] => false | _ :: _ => true end.

(** [n.toString()] for an integral Number (here: a millisecond clock
    reading, far below 1e21, so always printed in plain decimal). *)
Definition toString (n : Z) : str :=
  lit (NilZero.string_of_int (Z.to_int n)).

(** White space and line terminators stripped by
    [String.prototype.trim] (ECMA-262, WhiteSpace and LineTerminator;
    every one of them is a single code unit). *)
Definition isWhiteSpace (c : N) : bool :=
  ((9 <=? c) && (c <=? 13)) || (c =? 32) || (c =? 160) ||
  (c =? 0x1680) || ((0x2000 <=? c) && (c <=? 0x200A)) ||
  (c =? 0x2028) || (c =? 0x2029) || (c =? 0x202F) ||
  (c =? 0x205F) || (c =? 0x3000) || (c =? 0xFEFF).

Fixpoint trimStart (s : str) : str :=
  match s with
  | [] => []
  | c :: s' => if isWhiteSpace c then trimStart s' else s
  end.

Definition trimEnd (s : str) : str := rev (trimStart (rev s)).

Definition trim (s : str) : str := trimEnd (trimStart s).

(** [s.split('\n')[0]]: everything before the first line feed. *)
Fixpoint firstLine (s : str) : str :=
  match s with
  | [] => []
  | c :: s' => if c =? 10 then [] else c :: firstLine s'
  end.

(** [xs.join(sep)]. *)
Fixpoint join (sep : str) (xs : list str) : str :=
  match xs with
  | [] => []
  | [x] => x
  | x :: xs' => x ++ sep ++ join sep xs'
  end.

(** *** Regular expressions built from literal alternatives, flag [i]

    Without the [u] flag, case-insensitive matching compares
    [Canonicalize]d code units: the upper-case mapping of the unit,
    except that a unit >= 128 is never mapped below 128.  Every
    character of the pattern used in main.js is ASCII, so a unit
    >= 128 of the input never equals a canonicalized pattern
    character; the model leaves such units unchanged. *)
Definition canonicalize (c : N) : N :=
  if (97 <=? c) && (c <=? 122) then c - 32 else c.

(** Does the literal [pat] match at the very start of [s]? *)
Fixpoint matchesAt (pat s : str) : bool :=
  match pat, s with
  | [], _ => true
  | _ :: _, [] => false
  | p :: pat', c :: s' =>
      (canonicalize p =? canonicalize c) && matchesAt pat' s'
  end.

(** [/alt1|alt2|.../i.test(s)]: some alternative matches at some
    position of [s].  The expression carries neither [g] nor [y], so
    [test] keeps no [lastIndex] between calls. *)
Fixpoint test (alts : list str) (s : str) : bool :=
  existsb (fun pat => matchesAt pat s) alts ||
  match s with
  | [] => false
  | _ :: s' => test alts s'
  end.

(** *** Buffers

    A [Buffer] is a sequence of bytes.  [buf.toString()] decodes it as
    UTF-8 into a string; a byte sequence that is not well-formed
    UTF-8 yields U+FFFD for each maximal ill-formed part (the decoder
    of the WHATWG Encoding standard).  The decoder state remembers the
    bits gathered so far, the number of continuation bytes still
    expected and the range allowed for the next one. *)
Definition Buffer : Type := list Byte.byte.

Record Pending : Type := mkPending
  { acc : N; more : nat; lo : N; hi : N }.

Definition replacement : N := 0xFFFD.

(** A byte read while no sequence is open. *)
Definition utf8_start (b : N) : list N * option Pending :=
  if b <=? 0x7F then ([b], None)
  else if (0xC2 <=? b) && (b <=? 0xDF) then
    ([], Some (mkPending (N.land b 0x1F) 1 0x80 0xBF))
  else if (0xE0 <=? b) && (b <=? 0xEF) then
    ([], Some (mkPending (N.land b 0xF) 2
                 (if b =? 0xE0 then 0xA0 else 0x80)
                 (if b =? 0xED then 0x9F else 0xBF)))
  else if (0xF0 <=? b) && (b <=? 0xF4) then
    ([], Some (mkPending (N.land b 0x7) 3
                 (if b =? 0xF0 then 0x90 else 0x80)
                 (if b =? 0xF4 then 0x8F else 0xBF)))
  else ([replacement], None).

(** One byte: the code points it completes and the next state.  A byte
    outside the expected range closes the open sequence with U+FFFD
    and is then read again as the start of a new one. *)
Definition utf8_step (st : option Pending) (b : N)
  : list N * option Pending :=
  match st with
  | None => utf8_start b
  | Some p =>
      if (lo p <=? b) && (b <=? hi p) then
        let acc' := N.lor (N.shiftl (acc p) 6) (N.land b 0x3F) in
        match more p with
        | S (S _ as m) => ([], Some (mkPending acc' m 0x80 0xBF))
        | _ => ([acc'], None)
        end
      else
        let (out, st') := utf8_start b in (replacement :: out, st')
  end.

Fixpoint utf8_decode (st : option Pending) (bs : list N) : list N :=
  match bs with
  | [] => match st with None => [] | Some _ => [replacement] end
  | b :: bs' =>
      let (out, st') := utf8_step st b in out ++ utf8_decode st' bs'
  end.

(** The UTF-16 code units of one code point. *)
Definition utf16 (cp : N) : list N :=
  if cp <? 0x10000 then [cp]
  else [0xD800 + N.shiftr (cp - 0x10000) 10;
        0xDC00 + N.land (cp - 0x10000) 0x3FF].

Definition Buffer_toString (buf : Buffer) : str :=
  flat_map utf16 (utf8_decode None (map Byte.to_N buf)).

(** *** [Map] with string keys

    A [Map] iterates in insertion order; [set] on a key already
    present replaces the value in place. *)
Section MapOps.
Variable V : Type.

Definition Map : Type := list (str * V).

Fixpoint get (m : Map) (k : str) : option V :=
  match m with
  | [] => None
  | (k', v) :: m' => if eqb k' k then Some v else get m' k
  end.

Fixpoint set (m : Map) (k : str) (v : V) : Map :=
  match m with
  | [] => [(k, v)]
  | (k', v') :: m' =>
      if eqb k' k then (k', v) :: m' else (k', v') :: set m' k v
  end.

Fixpoint delete (m : Map) (k : str) : Map :=
  match m with
  | [] => []
  | (k', v) :: m' =>
      if eqb k' k then delete m' k else (k', v) :: delete m' k
  end.

Definition clear (m : Map) : Map := [].

Definition keys (m : Map) : list str := List.map fst m.
Definition values (m : Map) : list V := List.map snd m.
Definition size (m : Map) : nat := List.length m.
End MapOps.

End Js.

(* ================================================================= *)
(** ** Host, adapters and results *)

(** A thrown [Error]; only its [message] is ever read. *)
Record Error : Type := mkError { message : Js.str }.

(** Outcome of a call: a returned value or a raised exception. *)
Inductive Result (A : Type) : Type :=
| Returned (a : A)
| Threw (e : Error).

Arguments Returned {A} a.
Arguments Threw {A} e.

Definition bindR {A B} (c : Result A) (k : A -> Result B) : Result B :=
  match c with
  | Returned a => k a
  | Threw e => Threw e
  end.

(** [try { body } catch (e) { handler(e) }]. *)
Definition tryR {A} (body : Result A) (handler : Error -> Result A)
  : Result A :=
  match body with
  | Returned a => Returned a
  | Threw e => handler e
  end.

(** What the main process reads from its host when locating the CLI
    and building the child's environment. *)
Record Host : Type := mkHost
  { platform : Js.str;                       (* process.platform *)
    execSync : Js.str -> Result Js.str;      (* stdout, or the command fails *)
    existsSync : Js.str -> Result bool;      (* fs.existsSync *)
    homedir : Js.str;                        (* os.homedir() *)
    env_PROGRAMFILES : option Js.str;        (* process.env.PROGRAMFILES *)
    env_USERPROFILE : option Js.str;         (* process.env.USERPROFILE *)
    env_PATH : option Js.str }.              (* process.env.PATH *)

(** A process object handed out by [pty.spawn] or [child_process.spawn]. *)
Definition Handle : Type := nat.

(** [session.type]. *)
Inductive SessionType : Type := pty | spawn.

(** [session.state]; main.js only ever stores ['ready']. *)
Inductive SessionState : Type := ready.

(** The values stored in [sessions].  [process] is always a process
    object, so the guard [session && session.process] of the handlers
    reduces to the presence of the entry. *)
Record Session : Type := mkSession
  { process : Handle; state : SessionState; type : SessionType }.

(** How the adapter libraries answer during one handler run: whether
    spawning raises synchronously, whether a write raises, whether a
    kill request raises. *)
Record Adapter : Type := mkAdapter
  { spawn_raises : SessionType -> option Error;
    write_raises : Handle -> Js.str -> option Error;
    kill_raises : Handle -> option Js.str -> option Error }.

(** The [BrowserWindow] object behind [mainWindow]. *)
Record BrowserWindow : Type := mkWindow { isDestroyed : bool }.

(** Payload of a ['q-output'] message; [isPrompt] and [isError] are
    absent ([None]) when the object literal does not define them. *)
Record QOutput : Type := mkQOutput
  { out_sessionId : Js.str;
    data : Js.str;
    isPrompt : option bool;
    isError : option bool }.

(** Payload of a ['session-closed'] message; [code] is a number or
    [null]. *)
Record SessionClosed : Type := mkSessionClosed
  { closed_sessionId : Js.str;
    code : option Z;
    error : option Js.str }.

(** Everything the main process does to the outside, in order. *)
Inductive Effect : Type :=
| Spawn (p : Handle) (type : SessionType) (file PATH cwd : Js.str)
| SendQOutput (m : QOutput)             (* webContents.send('q-output', m) *)
| SendSessionClosed (m : SessionClosed) (* webContents.send('session-closed', m) *)
| PtyWrite (p : Handle) (text : Js.str)     (* session.process.write *)
| StdinWrite (p : Handle) (text : Js.str)   (* session.process.stdin.write *)
| Kill (p : Handle) (signal : option Js.str)
| QuitLater (ms : nat)                  (* setTimeout(() => app.quit(), ms) *)
| Quit.                                 (* app.quit() *)

(** The variables captured by the listeners [create-session] installs
    on a process. *)
Record Closure : Type := mkClosure
  { c_type : SessionType; c_sessionId : Js.str }.

(** The module-level state of main.js together with the listeners
    installed so far and the trace of effects. *)
Record World : Type := mkWorld
  { useNodePty : bool;                      (* useNodePty && pty *)
    mainWindow : option BrowserWindow;      (* None: null or undefined *)
    sessions : Js.Map Session;
    spawned : nat;                          (* processes created so far *)
    listeners : list (Handle * Closure);
    trace : list Effect }.

(** Handlers run in a state monad that can raise. *)
Definition M (A : Type) : Type := World -> Result A * World.

Definition ret {A} (a : A) : M A := fun w => (Returned a, w).

Definition throw {A} (e : Error) : M A := fun w => (Threw e, w).

Definition bind {A B} (c : M A) (k : A -> M B) : M B :=
  fun w =>
    match c w with
    | (Returned a, w') => k a w'
    | (Threw e, w') => (Threw e, w')
    end.

Definition tryCatch {A} (body : M A) (handler : Error -> M A) : M A :=
  fun w =>
    match body w with
    | (Returned a, w') => (Returned a, w')
    | (Threw e, w') => handler e w'
    end.

Notation "x <- c1 ;; c2" := (bind c1 (fun x => c2))
  (at level 61, c1 at next level, right associativity).
Notation "c1 ;; c2" := (bind c1 (fun _ => c2))
  (at level 61, right associativity).

Definition liftR {A} (r : Result A) : M A := fun w => (r, w).

Definition getWorld : M World := fun w => (Returned w, w).

Definition emit (e : Effect) : M unit :=
  fun w => (Returned tt,
            mkWorld (useNodePty w) (mainWindow w) (sessions w)
                    (spawned w) (listeners w) (trace w ++ [e])).

Definition setSessions (m : Js.Map Session) : M unit :=
  fun w => (Returned tt,
            mkWorld (useNodePty w) (mainWindow w) m
                    (spawned w) (listeners w) (trace w)).

Definition setMainWindow (win : option BrowserWindow) : M unit :=
  fun w => (Returned tt,
            mkWorld (useNodePty w) win (sessions w)
                    (spawned w) (listeners w) (trace w)).

(** [sessions.set], [sessions.get], [sessions.delete], [sessions.clear]. *)
Definition sessions_set (k : Js.str) (s : Session) : M unit :=
  w <- getWorld ;; setSessions (Js.set (sessions w) k s).

Definition sessions_get (k : Js.str) : M (option Session) :=
  w <- getWorld ;; ret (Js.get (sessions w) k).

Definition sessions_delete (k : Js.str) : M unit :=
  w <- getWorld ;; setSessions (Js.delete (sessions w) k).

Definition sessions_clear : M unit :=
  w <- getWorld ;; setSessions (Js.clear (sessions w)).

(** [xs.forEach(f)]. *)
Fixpoint forEach {A} (f : A -> M unit) (xs : list A) : M unit :=
  match xs with
  | [] => ret tt
  | x :: xs' => f x ;; forEach f xs'
  end.

(** [mainWindow && !mainWindow.isDestroyed()]. *)
Definition windowAlive (w : World) : bool :=
  match mainWindow w with
  | Some win => negb (isDestroyed win)
  | None => false
  end.

(* ================================================================= *)
(** ** Executable locator: [findQCliPath] *)

(** [v + '...'] where [v] is an environment variable that may be
    undefined. *)
Definition envText (v : option Js.str) : Js.str :=
  match v with
  | Some s => s
  | None => Js.lit "undefined"
  end.

(** The body of the first [try]: [which q], trimmed, accepted when it
    is non-empty and exists on disk.  [Some p] stands for [return p],
    [None] for falling out of the block. *)
Definition viaWhich (h : Host) : Result (option Js.str) :=
  tryR
    (bindR (execSync h (Js.lit "which q")) (fun out =>
     let result := Js.trim out in
     if Js.truthy result then
       bindR (existsSync h result) (fun found =>
       Returned (if found then Some result else None))
     else Returned None))
    (fun _ => Returned None).

(** The second [try], entered on Windows only: first line of [where q]. *)
Definition viaWhere (h : Host) : Result (option Js.str) :=
  if Js.eqb (platform h) (Js.lit "win32") then
    tryR
      (bindR (execSync h (Js.lit "where q")) (fun out =>
       let result := Js.firstLine (Js.trim out) in
       if Js.truthy result then
         bindR (existsSync h result) (fun found =>
         Returned (if found then Some result else None))
       else Returned None))
      (fun _ => Returned None)
  else Returned None.

(** The well-known install paths, by platform. *)
Definition searchPaths (h : Host) : list Js.str :=
  if Js.eqb (platform h) (Js.lit "darwin")
     || Js.eqb (platform h) (Js.lit "linux") then
    [ Js.lit "/usr/local/bin/q";
      Js.lit "/opt/homebrew/bin/q";
      Js.cat (homedir h) (Js.lit "/bin/q");
      Js.cat (homedir h) (Js.lit "/.local/bin/q");
      Js.lit "/usr/bin/q" ]
  else if Js.eqb (platform h) (Js.lit "win32") then
    [ Js.lit "q.exe";
      Js.cat (envText (env_PROGRAMFILES h)) (Js.lit "\Amazon\AWSCLIV2\q.exe");
      Js.cat (envText (env_USERPROFILE h))
             (Js.lit "\AppData\Local\Programs\q\q.exe");
      Js.cat (envText (env_PROGRAMFILES h)) (Js.lit "\q\q.exe");
      Js.lit "C:\Program Files\Amazon\AWSCLIV2\q.exe" ]
  else [].

(** The [for ... of searchPaths] loop, each probe in its own [try]. *)
Fixpoint probe (h : Host) (paths : list Js.str) : Result (option Js.str) :=
  match paths with
  | [] => Returned None
  | testPath :: rest =>
      bindR (tryR (bindR (existsSync h testPath) (fun found =>
                   Returned (if found then Some testPath else None)))
                  (fun _ => Returned None))
            (fun r => match r with
                      | Some p => Returned (Some p)
                      | None => probe h rest
                      end)
  end.

Definition findQCliPath (h : Host) : Result Js.str :=
  bindR (viaWhich h) (fun r1 =>
  match r1 with
  | Some p => Returned p
  | None =>
      bindR (viaWhere h) (fun r2 =>
      match r2 with
      | Some p => Returned p
      | None =>
          bindR (probe h (searchPaths h)) (fun r3 =>
          match r3 with
          | Some p => Returned p
          | None => Returned (Js.lit "q")
          end)
      end)
  end).

(* ================================================================= *)
(** ** The prompt classifier *)

(** The alternatives of
    [/\(y\/n\)|Do you want to continue\?|Can I|Should I|Allow|Trust|Proceed/i]. *)
Definition promptAlternatives : list Js.str :=
  [ Js.lit "(y/n)"; Js.lit "Do you want to continue?"; Js.lit "Can I";
    Js.lit "Should I"; Js.lit "Allow"; Js.lit "Trust"; Js.lit "Proceed" ].

(** The expression both backends evaluate into [isPrompt]. *)
Definition classify (text : Js.str) : bool :=
  Js.test promptAlternatives text.

(* ================================================================= *)
(** ** Listeners installed on a spawned process *)

(** [qProcess.onData] of the pseudo-terminal backend. *)
Definition pty_onData (sessionId : Js.str) (data : Js.str) : M unit :=
  w <- getWorld ;;
  if negb (windowAlive w) then ret tt
  else
    let isPrompt := classify data in
    emit (SendQOutput (mkQOutput sessionId data (Some isPrompt) None)).

(** [qProcess.stdout.on('data')] of the pipe backend. *)
Definition stdout_onData (sessionId : Js.str) (data : Js.Buffer) : M unit :=
  w <- getWorld ;;
  if negb (windowAlive w) then ret tt
  else
    let text := Js.Buffer_toString data in
    let isPrompt := classify text in
    emit (SendQOutput (mkQOutput sessionId text (Some isPrompt) None)).

(** [qProcess.stderr.on('data')] of the pipe backend. *)
Definition stderr_onData (sessionId : Js.str) (data : Js.Buffer) : M unit :=
  w <- getWorld ;;
  if negb (windowAlive w) then ret tt
  else
    emit (SendQOutput
            (mkQOutput sessionId (Js.Buffer_toString data) None (Some true))).

(** [qProcess.onExit((code, signal) => ...)] and
    [qProcess.on('close', (code) => ...)]: the two bodies are the same
    up to the logged text. *)
Definition onExit (sessionId : Js.str) (code : option Z) : M unit :=
  sessions_delete sessionId ;;
  w <- getWorld ;;
  if windowAlive w then
    emit (SendSessionClosed (mkSessionClosed sessionId code None))
  else ret tt.

(** [qProcess.on('error', (error) => ...)] of the pipe backend. *)
Definition onError (sessionId : Js.str) (error : Error) : M unit :=
  sessions_delete sessionId ;;
  w <- getWorld ;;
  if windowAlive w then
    emit (SendSessionClosed
            (mkSessionClosed sessionId (Some (-1)%Z) (Some (message error))))
  else ret tt.

(* ================================================================= *)
(** ** IPC handlers *)

(** [pty.spawn(...)] / [spawn(...)]: either raises, or hands out a new
    process object. *)
Definition spawnProcess (a : Adapter) (ty : SessionType)
           (file PATH cwd : Js.str) : M Handle :=
  match spawn_raises a ty with
  | Some e => throw e
  | None =>
      fun w =>
        let p := spawned w in
        (Returned p,
         mkWorld (useNodePty w) (mainWindow w) (sessions w)
                 (S (spawned w)) (listeners w)
                 (trace w ++ [Spawn p ty file PATH cwd]))
  end.

(** Registration of the listeners of one backend on process [p]; they
    close over [sessionId]. *)
Definition installListeners (p : Handle) (ty : SessionType)
           (sessionId : Js.str) : M unit :=
  fun w =>
    (Returned tt,
     mkWorld (useNodePty w) (mainWindow w) (sessions w) (spawned w)
             (listeners w ++ [(p, mkClosure ty sessionId)]) (trace w)).

(** The directories appended to the inherited search path. *)
Definition additionalPaths (userHome : Js.str) : list Js.str :=
  [ Js.lit "/usr/local/bin";
    Js.lit "/opt/homebrew/bin";
    Js.lit "/Applications/Docker.app/Contents/Resources/bin";
    Js.lit "/usr/bin";
    Js.cat userHome (Js.lit "/bin");
    Js.cat userHome (Js.lit "/.local/bin");
    Js.cat userHome (Js.lit "/.npm-global/bin");
    Js.lit "/usr/local/lib/node_modules/.bin";
    Js.lit "/opt/homebrew/lib/node_modules/.bin" ].

(** [ipcMain.handle('create-session', ...)]; [now] is the value read
    from [Date.now()]. *)
Definition create_session (h : Host) (a : Adapter) (now : Z) : M Js.str :=
  let sessionId := Js.toString now in
  tryCatch
    (qCliPath <- liftR (findQCliPath h) ;;
     let userHome := homedir h in
     let originalPath :=                      (* process.env.PATH || '' *)
       match env_PATH h with Some s => s | None => [] end in
     let comprehensivePath :=
       Js.join (Js.lit ":") (originalPath :: additionalPaths userHome) in
     w <- getWorld ;;
     (if useNodePty w then
        qProcess <- spawnProcess a pty qCliPath comprehensivePath userHome ;;
        sessions_set sessionId (mkSession qProcess ready pty) ;;
        installListeners qProcess pty sessionId
      else
        qProcess <- spawnProcess a spawn qCliPath comprehensivePath userHome ;;
        sessions_set sessionId (mkSession qProcess ready spawn) ;;
        installListeners qProcess spawn sessionId) ;;
     ret sessionId)
    (fun error => throw error).

(** A call into the adapter that may raise; the call is recorded
    either way. *)
Definition adapterCall (e : Effect) (raises : option Error) : M unit :=
  emit e ;;
  match raises with
  | Some err => throw err
  | None => ret tt
  end.

(** [ipcMain.handle('send-to-q', ...)]. *)
Definition send_to_q (a : Adapter) (sessionId input : Js.str) : M bool :=
  session <- sessions_get sessionId ;;
  match session with
  | Some s =>
      tryCatch
        (match type s with
         | pty =>
             let cleanInput := Js.trim input in
             let text := Js.cat cleanInput Js.CR in
             adapterCall (PtyWrite (process s) text)
                         (write_raises a (process s) text)
         | spawn =>
             let text := Js.cat input Js.LF in
             adapterCall (StdinWrite (process s) text)
                         (write_raises a (process s) text)
         end ;;
         ret true)
        (fun _ => ret false)
  | None => ret false
  end.

(** [ipcMain.handle('kill-session', ...)]. *)
Definition kill_session (a : Adapter) (sessionId : Js.str) : M bool :=
  session <- sessions_get sessionId ;;
  match session with
  | Some s =>
      adapterCall (Kill (process s) None) (kill_raises a (process s) None) ;;
      sessions_delete sessionId ;;
      ret true
  | None => ret false
  end.

(** The loop shared by the three shutdown paths:
    [sessions.forEach(session => { try { session.process.kill(sig) }
    catch (error) { console.error(...) } })]. *)
Definition killAll (a : Adapter) (signal : option Js.str) : M unit :=
  w <- getWorld ;;
  forEach (fun session =>
             tryCatch
               (adapterCall (Kill (process session) signal)
                            (kill_raises a (process session) signal))
               (fun _ => ret tt))
          (Js.values (sessions w)).

Definition SIGTERM : Js.str := Js.lit "SIGTERM".

(** The object [close-app] resolves to. *)
Record CloseResult : Type := mkCloseResult
  { success : bool; close_error : option Js.str }.

(** [ipcMain.handle('close-app', ...)]. *)
Definition close_app (a : Adapter) : M CloseResult :=
  tryCatch
    (killAll a (Some SIGTERM) ;;
     sessions_clear ;;
     w <- getWorld ;;
     (if windowAlive w then setMainWindow None else ret tt) ;;
     emit (QuitLater 100) ;;
     ret (mkCloseResult true None))
    (fun error =>
       emit Quit ;;
       ret (mkCloseResult false (Some (message error)))).

(** [mainWindow.on('close', ...)]. *)
Definition window_close (a : Adapter) : M unit :=
  killAll a (Some SIGTERM) ;;
  sessions_clear ;;
  setMainWindow None.

(** [app.on('window-all-closed', ...)]. *)
Definition window_all_closed (a : Adapter) : M unit :=
  killAll a None ;;
  sessions_clear ;;
  emit Quit.

(** [createWindow()], as far as the session layer sees it: a fresh
    window is stored in [mainWindow]. *)
Definition createWindow : M unit := setMainWindow (Some (mkWindow false)).

(** Electron destroying the window object [mainWindow] refers to. *)
Definition destroyWindow : M unit :=
  w <- getWorld ;;
  match mainWindow w with
  | Some _ => setMainWindow (Some (mkWindow true))
  | None => ret tt
  end.

(* ================================================================= *)
(** ** The event loop *)

(** What can happen to the main process: an IPC call from the
    renderer, a window life-cycle notification, or an event a spawned
    process emits. *)
Inductive Event : Type :=
| CreateSession (now : Z)
| SendToQ (sessionId input : Js.str)
| KillSession (sessionId : Js.str)
| CloseApp
| CreateWindow
| WindowDestroyed
| WindowClose
| WindowAllClosed
| PtyData (p : Handle) (data : Js.str)
| PtyExit (p : Handle) (code : option Z) (signal : option Z)
| StdoutData (p : Handle) (data : Js.Buffer)
| StderrData (p : Handle) (data : Js.Buffer)
| ChildClose (p : Handle) (code : option Z)
| ChildError (p : Handle) (error : Error).

Definition SessionType_eqb (a b : SessionType) : bool :=
  match a, b with
  | pty, pty | spawn, spawn => true
  | _, _ => false
  end.

(** The listeners installed on process [p], if any. *)
Fixpoint listenerOf (ls : list (Handle * Closure)) (p : Handle)
  : option Closure :=
  match ls with
  | [] => None
  | (q, c) :: ls' => if Nat.eqb q p then Some c else listenerOf ls' p
  end.

(** An event of process [p] reaches the listener of its backend, which
    runs with the session id it captured. *)
Definition dispatch (p : Handle) (ty : SessionType)
           (listener : Js.str -> M unit) : M unit :=
  w <- getWorld ;;
  match listenerOf (listeners w) p with
  | Some c =>
      if SessionType_eqb (c_type c) ty then listener (c_sessionId c)
      else ret tt
  | None => ret tt
  end.

(** The result of an IPC call goes back to the renderer; the main
    process keeps only the state. *)
Definition discard {A} (c : M A) : M unit :=
  fun w => (Returned tt, snd (c w)).

Definition handleEvent (h : Host) (a : Adapter) (ev : Event) : M unit :=
  match ev with
  | CreateSession now => discard (create_session h a now)
  | SendToQ sessionId input => discard (send_to_q a sessionId input)
  | KillSession sessionId => discard (kill_session a sessionId)
  | CloseApp => discard (close_app a)
  | CreateWindow => createWindow
  | WindowDestroyed => destroyWindow
  | WindowClose => window_close a
  | WindowAllClosed => window_all_closed a
  | PtyData p d => dispatch p pty (fun sessionId => pty_onData sessionId d)
  | PtyExit p c _ => dispatch p pty (fun sessionId => onExit sessionId c)
  | StdoutData p d =>
      dispatch p spawn (fun sessionId => stdout_onData sessionId d)
  | StderrData p d =>
      dispatch p spawn (fun sessionId => stderr_onData sessionId d)
  | ChildClose p c => dispatch p spawn (fun sessionId => onExit sessionId c)
  | ChildError p e => dispatch p spawn (fun sessionId => onError sessionId e)
  end.

Definition step (h : Host) (a : Adapter) (ev : Event) (w : World) : World :=
  snd (handleEvent h a ev w).

(** The state right after main.js has been loaded. *)
Definition initial (nodePty : bool) : World :=
  mkWorld nodePty None [] 0 [] [].

(** One turn of the event loop with the host and adapter behaviour
    observed during it. *)
Definition Turn : Type := (Host * Adapter * Event)%type.

Definition run (turns : list Turn) (w : World) : World :=
  fold_left (fun w t => let '(h, a, ev) := t in step h a ev w) turns w.

Inductive reachable : World -> Prop :=
| reach_initial (nodePty : bool) : reachable (initial nodePty)
| reach_step (h : Host) (a : Adapter) (ev : Event) (w : World) :
    reachable w -> reachable (step h a ev w).

(** The ['session-closed'] and ['q-output'] messages of a trace. *)
Definition sessionClosedOf (e : Effect) : option SessionClosed :=
  match e with SendSessionClosed m => Some m | _ => None end.

Definition qOutputOf (e : Effect) : option QOutput :=
  match e with SendQOutput m => Some m | _ => None end.

Fixpoint collect {A B} (f : A -> option B) (xs : list A) : list B :=
  match xs with
  | [] => []
  | x :: xs' =>
      match f x with
      | Some b => b :: collect f xs'
      | None => collect f xs'
      end
  end.

(* ================================================================= *)
(** ** Notions used to state the properties *)

(** [p] is reported to exist on disk. *)
Definition onDisk (h : Host) (p : Js.str) : bool :=
  match existsSync h p with
  | Returned true => true
  | _ => false
  end.

(** The path printed by [which q], when the command succeeds and
    prints something. *)
Definition whichAnswer (h : Host) : option Js.str :=
  match execSync h (Js.lit "which q") with
  | Returned out =>
      if Js.truthy (Js.trim out) then Some (Js.trim out) else None
  | Threw _ => None
  end.

(** The first path printed by [where q]; consulted on Windows only. *)
Definition whereAnswer (h : Host) : option Js.str :=
  if Js.eqb (platform h) (Js.lit "win32") then
    match execSync h (Js.lit "where q") with
    | Returned out =>
        if Js.truthy (Js.firstLine (Js.trim out))
        then Some (Js.firstLine (Js.trim out)) else None
    | Threw _ => None
    end
  else None.

(** A lookup answer is accepted only if it exists on disk. *)
Definition accepted (h : Host) (answer : option Js.str) : option Js.str :=
  match answer with
  | Some p => if onDisk h p then Some p else None
  | None => None
  end.

(** The locator as the specification words it: native lookup, then the
    first well-known path that exists, then the bare command name. *)
Definition locate_spec (h : Host) : Js.str :=
  match accepted h (whichAnswer h) with
  | Some p => p
  | None =>
      match accepted h (whereAnswer h) with
      | Some p => p
      | None =>
          match find (onDisk h) (searchPaths h) with
          | Some p => p
          | None => Js.lit "q"
          end
      end
  end.

(** A live session: registered under [sessionId], with a process that
    takes the kill request. *)
Definition live (a : Adapter) (w : World) (sessionId : Js.str) : bool :=
  match Js.get (sessions w) sessionId with
  | Some s =>
      match kill_raises a (process s) None with
      | None => true
      | Some _ => false
      end
  | None => false
  end.

(** The registry holds at most one entry per id and per process. *)
Definition registry_wf (w : World) : Prop :=
  NoDup (Js.keys (sessions w)) /\
  NoDup (map process (Js.values (sessions w))).

(** The invariant behind it: besides, every registered process was
    handed out by an earlier spawn. *)
Definition registry_inv (w : World) : Prop :=
  registry_wf w /\
  Forall (fun s => process s < spawned w) (Js.values (sessions w)).

(** ASCII case mappings on code units. *)
Definition toUpperAscii (c : N) : N :=
  if ((97 <=? c) && (c <=? 122))%N then (c - 32)%N else c.

Definition toLowerAscii (c : N) : N :=
  if ((65 <=? c) && (c <=? 90))%N then (c + 32)%N else c.

(** Unicode scalar values and their UTF-8 encoding (RFC 3629), to say
    which chunks are well-formed text. *)
Definition isScalar (cp : N) : bool :=
  ((cp <? 0xD800) || ((0xDFFF <? cp) && (cp <? 0x110000)))%N.

Definition utf8_encode (cp : N) : list N :=
  (if cp <? 0x80 then [cp]
   else if cp <? 0x800 then [0xC0 + cp / 64; 0x80 + cp mod 64]
   else if cp <? 0x10000 then
     [0xE0 + cp / 4096; 0x80 + (cp / 64) mod 64; 0x80 + cp mod 64]
   else
     [0xF0 + cp / 262144; 0x80 + (cp / 4096) mod 64;
      0x80 + (cp / 64) mod 64; 0x80 + cp mod 64])%N.

(** [buf] holds exactly the UTF-8 encoding of the text [cps]. *)
Definition encodes (buf : Js.Buffer) (cps : list N) : Prop :=
  Forall (fun cp => isScalar cp = true) cps /\
  map Byte.to_N buf = flat_map utf8_encode cps.

(** The ['q-output'] messages the two stdout-like listeners send for a
    chunk. *)
Definition ptyMessage (sessionId data : Js.str) : Effect :=
  SendQOutput (mkQOutput sessionId data (Some (classify data)) None).

Definition stdoutMessage (sessionId : Js.str) (data : Js.Buffer) : Effect :=
  SendQOutput (mkQOutput sessionId (Js.Buffer_toString data)
                         (Some (classify (Js.Buffer_toString data))) None).

Definition stderrMessage (sessionId : Js.str) (data : Js.Buffer) : Effect :=
  SendQOutput (mkQOutput sessionId (Js.Buffer_toString data) None (Some true)).

(** The kill requests a shutdown sends for a registry. *)
Definition killsFor (m : Js.Map Session) (signal : option Js.str)
  : list Effect :=
  map (fun s => Kill (process s) signal) (Js.values m).

(** [w] after the effects [es] and no other change. *)
Definition logged (w : World) (es : list Effect) : World :=
  mkWorld (useNodePty w) (mainWindow w) (sessions w) (spawned w)
          (listeners w) (trace w ++ es).

(** [w] with its registry replaced. *)
Definition withSessions (w : World) (m : Js.Map Session) : World :=
  mkWorld (useNodePty w) (mainWindow w) m (spawned w)
          (listeners w) (trace w).

(** [w] with [mainWindow] replaced. *)
Definition withWindow (w : World) (win : option BrowserWindow) : World :=
  mkWorld (useNodePty w) win (sessions w) (spawned w)
          (listeners w) (trace w).

(** What the adapter answers to the write [send-to-q] attempts. *)
Definition writeRaises (a : Adapter) (s : Session) (input : Js.str)
  : option Error :=
  match type s with
  | pty => write_raises a (process s) (Js.cat (Js.trim input) Js.CR)
  | spawn => write_raises a (process s) (Js.cat input Js.LF)
  end.

(** The backend [create-session] selects in [w]. *)
Definition backendOf (w : World) : SessionType :=
  if useNodePty w then pty else spawn.

(** The search path handed to the child. *)
Definition childPATH (h : Host) : Js.str :=
  Js.join (Js.lit ":")
          (match env_PATH h with Some s => s | None => [] end
           :: additionalPaths (homedir h)).

(** [w] after a session has been created at clock reading [now]: a new
    process, registered under the decimal rendering of [now], with its
    listeners installed. *)
Definition created (h : Host) (now : Z) (w : World) : World :=
  mkWorld (useNodePty w) (mainWindow w)
          (Js.set (sessions w) (Js.toString now)
                  (mkSession (spawned w) ready (backendOf w)))
          (S (spawned w))
          (listeners w ++
           [(spawned w, mkClosure (backendOf w) (Js.toString now))])
          (trace w ++
           [Spawn (spawned w) (backendOf w) (locate_spec h) (childPATH h)
                  (homedir h)]).

(** The exit report a process makes to the listeners of its backend. *)
Definition exitEvent (ty : SessionType) (p : Handle) (code : option Z)
           (signal : option Z) : Event :=
  match ty with
  | pty => PtyExit p code signal
  | spawn => ChildClose p code
  end.

(** *** Sample hosts, adapters and runs *)

(** A Linux host on which [which q] fails and no probed path exists. *)
Definition bareHost : Host :=
  mkHost (Js.lit "linux")
         (fun _ => Threw (mkError (Js.lit "Command failed: which q")))
         (fun _ => Returned false)
         (Js.lit "/home/user") None None (Some (Js.lit "/usr/bin:/bin")).

(** Adapters whose calls all return normally. *)
Definition quietAdapter : Adapter :=
  mkAdapter (fun _ => None) (fun _ _ => None) (fun _ _ => None).

(** Adapters that refuse to spawn. *)
Definition refusingAdapter : Adapter :=
  mkAdapter (fun _ => Some (mkError (Js.lit "spawn q ENOENT")))
            (fun _ _ => None) (fun _ _ => None).

(** A reading of [Date.now()]. *)
Definition clock0 : Z := 1700000000000.

(** A window is open and one session has been created. *)
Definition oneSession (nodePty : bool) : World :=
  run [ (bareHost, quietAdapter, CreateWindow);
        (bareHost, quietAdapter, CreateSession clock0) ]
      (initial nodePty).

(* ================================================================= *)
(** ** Further notions: the session layer *)

(** Every registered session is wired: the listeners installed on its
    process captured the id it is registered under and its backend, and
    every process with listeners was handed out by an earlier spawn. *)
Definition wired (w : World) : Prop :=
  Forall (fun kv =>
            listenerOf (listeners w) (process (snd kv)) =
            Some (mkClosure (type (snd kv)) (fst kv)))
         (sessions w) /\
  Forall (fun pc => fst pc < spawned w) (listeners w).

(** The events a spawned process emits. *)
Definition isProcessEvent (ev : Event) : bool :=
  match ev with
  | PtyData _ _ | PtyExit _ _ _ | StdoutData _ _ | StderrData _ _
  | ChildClose _ _ | ChildError _ _ => true
  | _ => false
  end.

(** Turns in which only spawned processes speak. *)
Definition processTurns (turns : list Turn) : bool :=
  forallb (fun t => isProcessEvent (snd t)) turns.

(** A string with no white space at either end. *)
Definition edgeClean (s : Js.str) : bool :=
  match s with
  | [] => true
  | c :: _ => negb (Js.isWhiteSpace c)
  end &&
  match rev s with
  | [] => true
  | c :: _ => negb (Js.isWhiteSpace c)
  end.

(** The text of the writes of a trace, by stream. *)
Definition ptyWriteOf (e : Effect) : option Js.str :=
  match e with PtyWrite _ text => Some text | _ => None end.

(** Adapters whose kill requests raise. *)
Definition stubbornAdapter : Adapter :=
  mkAdapter (fun _ => None) (fun _ _ => None)
            (fun _ _ => Some (mkError (Js.lit "kill EPERM"))).

(* ================================================================= *)
(** ** Docker status check: [checkDockerStatus] *)

Definition dockerPaths : list Js.str :=
  [ Js.lit "docker";
    Js.lit "/usr/local/bin/docker";
    Js.lit "/opt/homebrew/bin/docker";
    Js.lit "/Applications/Docker.app/Contents/Resources/bin/docker" ].

(** The object [checkDockerStatus] returns; [docker_error] is [null]
    when Docker runs. *)
Record DockerStatus : Type := mkDockerStatus
  { running : bool; docker_error : option Js.str }.

(** The inner [for] loop: [execSync(`${dockerPath} ps`, ...)] in its own
    [try]; the first command that succeeds returns. *)
Fixpoint tryDockerPaths (h : Host) (paths : list Js.str)
  : Result (option DockerStatus) :=
  match paths with
  | [] => Returned None
  | dockerPath :: rest =>
      bindR (tryR (bindR (execSync h (Js.cat dockerPath (Js.lit " ps")))
                         (fun _ => Returned (Some (mkDockerStatus true None))))
                  (fun _ => Returned None))
            (fun r => match r with
                      | Some st => Returned (Some st)
                      | None => tryDockerPaths h rest
                      end)
  end.

Definition checkDockerStatus (h : Host) : Result DockerStatus :=
  tryR
    (bindR (tryDockerPaths h dockerPaths) (fun r =>
     match r with
     | Some st => Returned st
     | None =>
         Returned (mkDockerStatus false (Some (Js.lit "Docker not found")))
     end))
    (fun _ =>
       Returned (mkDockerStatus false (Some (Js.lit "Docker not running")))).

(** [cmd] succeeds on [h]. *)
Definition succeeds (h : Host) (cmd : Js.str) : bool :=
  match execSync h cmd with
  | Returned _ => true
  | Threw _ => false
  end.

(* ================================================================= *)
(** ** File handlers: [save-mcp-config] and [save-report] *)

(** How a handler that may loop ends: with a value, with an exception,
    or not at all. *)
Inductive Outcome (A : Type) : Type :=
| Done (a : A)
| Raised (e : Error)
| Hung.

Arguments Done {A} a.
Arguments Raised {A} e.
Arguments Hung {A}.

(** What the file handlers do to the outside. *)
Inductive FsEffect : Type :=
| Mkdir (path : Js.str)                 (* fs.mkdirSync(path, {recursive}) *)
| WriteFile (path content : Js.str)     (* fs.writeFileSync *)
| CopyFile (src dst : Js.str)           (* fs.copyFileSync *)
| Sleep (ms : Z).                       (* await setTimeout(resolve, ms) *)

(** A computation with its effects, in order. *)
Definition IO (A : Type) : Type := (Outcome A * list FsEffect)%type.

Definition ioRet {A} (a : A) : IO A := (Done a, []).

Definition ioThrow {A} (e : Error) : IO A := (Raised e, []).

Definition ioHang {A} : IO A := (Hung, []).

Definition ioBind {A B} (c : IO A) (k : A -> IO B) : IO B :=
  match c with
  | (Done a, es) => let (o, es') := k a in (o, es ++ es')
  | (Raised e, es) => (Raised e, es)
  | (Hung, es) => (Hung, es)
  end.

(** [try { body } catch (e) { handler(e) }]; a body that does not end
    is not caught. *)
Definition ioTry {A} (body : IO A) (handler : Error -> IO A) : IO A :=
  match body with
  | (Raised e, es) => let (o, es') := handler e in (o, es ++ es')
  | other => other
  end.

Notation "x <~ c1 ;; c2" := (ioBind c1 (fun x => c2))
  (at level 61, c1 at next level, right associativity).

Definition ioEmit (e : FsEffect) : IO unit := (Done tt, [e]).

Definition ioLift {A} (r : Result A) : IO A :=
  match r with
  | Returned a => (Done a, [])
  | Threw e => (Raised e, [])
  end.

(** A file-system call that may raise; the call is recorded either way. *)
Definition ioCall (e : FsEffect) (raises : option Error) : IO unit :=
  match raises with
  | Some err => (Raised err, [e])
  | None => (Done tt, [e])
  end.

(** The pure library functions and process constants the handlers use. *)
Record Runtime : Type := mkRuntime
  { join : list Js.str -> Js.str;             (* path.join(...) *)
    extname : Js.str -> Js.str;               (* path.extname *)
    basename : Js.str -> Js.str -> Js.str;    (* path.basename(p, ext) *)
    os_homedir : Js.str;                      (* os.homedir() *)
    process_cwd : Js.str;                     (* process.cwd() *)
    os_tmpdir : Js.str;                       (* os.tmpdir() *)
    JSON_parse : Js.str -> option Error }.    (* the error JSON.parse raises *)

(** What the file system answers during one run. *)
Record Disk : Type := mkDisk
  { disk_existsSync : Js.str -> Result bool;
    mkdirSync : Js.str -> option Error;
    writeFileSync : Js.str -> Js.str -> option Error;
    copyFileSync : Js.str -> Js.str -> option Error;
    statSync_size : Js.str -> Result N }.     (* fs.statSync(p).size *)

(** [path.join(os.homedir(), '.aws', 'amazonq', 'mcp.json')]. *)
Definition configPath (rt : Runtime) : Js.str :=
  join rt [os_homedir rt; Js.lit ".aws"; Js.lit "amazonq"; Js.lit "mcp.json"].

(** [configPath + '.backup.' + Date.now()]. *)
Definition backupPath (rt : Runtime) (now : Z) : Js.str :=
  Js.cat (Js.cat (configPath rt) (Js.lit ".backup.")) (Js.toString now).

(** The object [save-mcp-config] resolves to. *)
Record McpSaved : Type := mkMcpSaved
  { mcp_success : bool;
    mcp_backupPath : option Js.str;
    mcp_error : option Js.str }.

(** [ipcMain.handle('save-mcp-config', ...)]. *)
Definition save_mcp_config (rt : Runtime) (d : Disk) (now : Z)
           (content : Js.str) : IO McpSaved :=
  ioTry
    (present <~ ioLift (disk_existsSync d (configPath rt)) ;;
     _ <~ (if present
           then ioCall (CopyFile (configPath rt) (backupPath rt now))
                       (copyFileSync d (configPath rt) (backupPath rt now))
           else ioRet tt) ;;
     _ <~ ioLift (match JSON_parse rt content with
                  | Some e => Threw e
                  | None => Returned tt
                  end) ;;
     _ <~ ioCall (WriteFile (configPath rt) content)
                 (writeFileSync d (configPath rt) content) ;;
     ioRet (mkMcpSaved true (Some (backupPath rt now)) None))
    (fun error => ioRet (mkMcpSaved false None (Some (message error)))).

(** The class [[a-zA-Z0-9.-]] of the sanitizing expression. *)
Definition isFilenameChar (c : N) : bool :=
  (((97 <=? c) && (c <=? 122)) || ((65 <=? c) && (c <=? 90)) ||
   ((48 <=? c) && (c <=? 57)) || (c =? 46) || (c =? 45))%N.

(** [filename.replace(/[^a-zA-Z0-9.-]/g, '_')]: every code unit outside
    the class becomes an underscore. *)
Definition sanitizeFilename (filename : Js.str) : Js.str :=
  map (fun c => if isFilenameChar c then c else 95%N) filename.

(** [e?.message || 'Unknown error']. *)
Definition messageOr (e : option Error) : Js.str :=
  match e with
  | Some err =>
      if Js.truthy (message err) then message err
      else Js.lit "Unknown error"
  | None => Js.lit "Unknown error"
  end.

(** [path.join(location, `${name}_${counter}${ext}`)] with [ext] and
    [name] taken from the sanitized file name. *)
Definition numberedPath (rt : Runtime) (location sanitizedFilename : Js.str)
           (counter : Z) : Js.str :=
  let ext := extname rt sanitizedFilename in
  let name := basename rt sanitizedFilename ext in
  join rt [location;
           Js.cat (Js.cat (Js.cat name (Js.lit "_")) (Js.toString counter))
                  ext].

(** [while (fs.existsSync(finalPath)) { finalPath = ...; counter++ }];
    [fuel] bounds the number of tests, and the loop hangs when it is
    used up. *)
Fixpoint uniquePath (fuel : nat) (rt : Runtime) (d : Disk)
         (location sanitizedFilename finalPath : Js.str) (counter : Z)
  : IO Js.str :=
  match fuel with
  | O => ioHang
  | S fuel' =>
      present <~ ioLift (disk_existsSync d finalPath) ;;
      if present then
        uniquePath fuel' rt d location sanitizedFilename
                   (numberedPath rt location sanitizedFilename counter)
                   (counter + 1)
      else ioRet finalPath
  end.

(** The body of the [try] run for one save location. *)
Definition saveToLocation (fuel : nat) (rt : Runtime) (d : Disk)
           (location sanitizedFilename htmlContent : Js.str) : IO Js.str :=
  present <~ ioLift (disk_existsSync d location) ;;
  _ <~ (if negb present
        then ioCall (Mkdir location) (mkdirSync d location)
        else ioRet tt) ;;
  let filePath := join rt [location; sanitizedFilename] in
  finalPath <~ uniquePath fuel rt d location sanitizedFilename filePath 1 ;;
  _ <~ ioCall (WriteFile finalPath htmlContent)
              (writeFileSync d finalPath htmlContent) ;;
  size <~ ioLift (statSync_size d finalPath) ;;
  if (size =? 0)%N
  then ioThrow (mkError (Js.lit "File was created but is empty"))
  else ioRet finalPath.

Definition saveLocations (rt : Runtime) : list Js.str :=
  [ join rt [os_homedir rt; Js.lit "Downloads"];
    join rt [os_homedir rt; Js.lit "Documents"];
    join rt [process_cwd rt; Js.lit "exports"];
    os_tmpdir rt ].

(** The [for ... of saveLocations] loop: the first location that works
    ends it; a failing one leaves its error in [saveError].  The result
    is [savedPath] and [saveError]. *)
Fixpoint tryLocations (fuel : nat) (rt : Runtime) (d : Disk)
         (locations : list Js.str) (sanitizedFilename htmlContent : Js.str)
         (saveError : option Error) : IO (option Js.str * option Error) :=
  match locations with
  | [] => ioRet (None, saveError)
  | location :: rest =>
      r <~ ioTry (finalPath <~ saveToLocation fuel rt d location
                                 sanitizedFilename htmlContent ;;
                  ioRet (inl finalPath))
                 (fun locationError => ioRet (inr locationError)) ;;
      match r with
      | inl finalPath => ioRet (Some finalPath, saveError)
      | inr locationError =>
          tryLocations fuel rt d rest sanitizedFilename htmlContent
                       (Some locationError)
      end
  end.

(** The object [save-report] resolves to. *)
Record ReportResult : Type := mkReportResult
  { report_success : bool;
    report_filePath : option Js.str;
    report_size : option N;
    report_error : option Js.str }.

(** The body of the outer [try]: one attempt. *)
Definition saveAttempt (fuel : nat) (rt : Runtime) (d : Disk)
           (filename htmlContent : Js.str) : IO ReportResult :=
  if negb (Js.truthy filename) then
    ioThrow (mkError (Js.lit "Invalid filename provided"))
  else if negb (Js.truthy htmlContent) then
    ioThrow (mkError (Js.lit "Invalid HTML content provided"))
  else
    let sanitizedFilename := sanitizeFilename filename in
    r <~ tryLocations fuel rt d (saveLocations rt) sanitizedFilename
                      htmlContent None ;;
    match fst r with
    | Some ((_ :: _) as savedPath) =>
        size <~ ioLift (statSync_size d savedPath) ;;
        ioRet (mkReportResult true (Some savedPath) (Some size) None)
    | _ =>                                (* !savedPath *)
        ioThrow (mkError
                   (Js.cat (Js.lit "Failed to save to any location. Last error: ")
                           (messageOr (snd r))))
    end.

Definition maxRetries : nat := 3.

(** The [for (attempt ...)] loop from [attempt] on, with [remaining]
    attempts left; [disk n] is what the file system answers during
    attempt [n]. *)
Fixpoint retryFrom (fuel : nat) (rt : Runtime) (disk : nat -> Disk)
         (filename htmlContent : Js.str) (remaining attempt : nat)
         (lastError : option Error) : IO ReportResult :=
  match remaining with
  | O =>
      ioRet (mkReportResult false None None
               (Some (Js.cat (Js.lit "Failed to save report after 3 attempts: ")
                             (messageOr lastError))))
  | S remaining' =>
      r <~ ioTry (res <~ saveAttempt fuel rt (disk attempt) filename
                           htmlContent ;;
                  ioRet (inl res))
                 (fun error => ioRet (inr error)) ;;
      match r with
      | inl res => ioRet res
      | inr error =>
          _ <~ (if attempt <? maxRetries - 1
                then ioEmit (Sleep (2 ^ Z.of_nat attempt * 1000))
                else ioRet tt) ;;
          retryFrom fuel rt disk filename htmlContent remaining'
                    (S attempt) (Some error)
      end
  end.

(** [ipcMain.handle('save-report', ...)]. *)
Definition save_report (fuel : nat) (rt : Runtime) (disk : nat -> Disk)
           (filename htmlContent : Js.str) : IO ReportResult :=
  retryFrom fuel rt disk filename htmlContent maxRetries 0 None.

(** The write effects of a run. *)
Definition writeOf (e : FsEffect) : option (Js.str * Js.str) :=
  match e with WriteFile p c => Some (p, c) | _ => None end.

(** The [k]-th candidate name in a location: the sanitized name itself,
    then the numbered ones. *)
Definition candidate (rt : Runtime) (location sanitizedFilename : Js.str)
           (k : nat) : Js.str :=
  match k with
  | O => join rt [location; sanitizedFilename]
  | S _ => numberedPath rt location sanitizedFilename (Z.of_nat k)
  end.

(** *** Sample runtime and disks *)

(** [path.join] on well-formed segments, without normalisation. *)
Definition plainRuntime : Runtime :=
  mkRuntime (Js.join (Js.lit "/")) (fun _ => Js.lit ".html")
            (fun _ _ => Js.lit "report")
            (Js.lit "/home/user") (Js.lit "/opt/app") (Js.lit "/tmp")
            (fun content =>
               if Js.eqb content (Js.lit "{}") then None
               else Some (mkError (Js.lit "Unexpected token"))).

(** A disk on which every directory exists, no file does, and every
    call succeeds; written files have size 42. *)
Definition emptyDisk : Disk :=
  mkDisk (fun p => Returned (negb (Js.test [Js.lit ".html"; Js.lit "mcp.json"] p)))
         (fun _ => None) (fun _ _ => None) (fun _ _ => None)
         (fun _ => Returned 42%N).

(** The same disk, except that [report.html] is already in Downloads. *)
Definition takenDisk : Disk :=
  mkDisk (fun p => Returned
                     (Js.eqb p (Js.lit "/home/user/Downloads/report.html")
                      || negb (Js.test [Js.lit ".html"; Js.lit "mcp.json"] p)))
         (fun _ => None) (fun _ _ => None) (fun _ _ => None)
         (fun _ => Returned 42%N).

(* ================================================================= *)
(** ** [read-file] *)

(** The fields of an [fs.Stats] object the handler reads. *)
Record Stats : Type := mkStats
  { st_isDirectory : bool; st_size : N; st_mtime : Z }.

(** What the file system answers to the read-only calls. *)
Record FileTree : Type := mkFileTree
  { statSync : Js.str -> Result Stats;
    readdirSync : Js.str -> Result (list Js.str);
    readFileSync : Js.str -> Result Js.str }.

(** One element of [files]. *)
Record FileEntry : Type := mkFileEntry
  { entry_name : Js.str;
    entry_path : Js.str;
    entry_isDirectory : bool;
    entry_size : N;
    entry_modified : Z }.

(** The three shapes of the object [read-file] resolves to. *)
Inductive ReadResult : Type :=
| ReadFailed (error : Js.str)                 (* success: false *)
| ReadDirectory (files : list FileEntry)      (* isDirectory: true *)
| ReadContent (content : Js.str) (stats : Stats).

(** The callback of [readdirSync(filePath).map(...)]. *)
Definition describeEntry (rt : Runtime) (t : FileTree) (filePath name : Js.str)
  : Result FileEntry :=
  let fullPath := join rt [filePath; name] in
  bindR (statSync t fullPath) (fun stat =>
  Returned (mkFileEntry name fullPath (st_isDirectory stat) (st_size stat)
                        (st_mtime stat))).

(** [names.map(f)] for a callback that may raise. *)
Fixpoint mapR {A B} (f : A -> Result B) (xs : list A) : Result (list B) :=
  match xs with
  | [] => Returned []
  | x :: xs' =>
      bindR (f x) (fun y =>
      bindR (mapR f xs') (fun ys => Returned (y :: ys)))
  end.

(** [ipcMain.handle('read-file', ...)]. *)
Definition read_file (rt : Runtime) (t : FileTree) (filePath : Js.str)
  : Result ReadResult :=
  tryR
    (bindR (statSync t filePath) (fun stats =>
     if st_isDirectory stats then
       bindR (readdirSync t filePath) (fun names =>
       bindR (mapR (describeEntry rt t filePath) names) (fun files =>
       Returned (ReadDirectory files)))
     else
       bindR (readFileSync t filePath) (fun content =>
       Returned (ReadContent content stats))))
    (fun error => Returned (ReadFailed (message error))).

(** A directory with a readable file and a dangling link. *)
Definition sampleTree : FileTree :=
  mkFileTree
    (fun p => if Js.eqb p (Js.lit "/data") then Returned (mkStats true 64 0)
              else if Js.eqb p (Js.lit "/data/a.txt")
                   then Returned (mkStats false 3 1)
                   else Threw (mkError (Js.lit "ENOENT: no such file")))
    (fun _ => Returned [Js.lit "a.txt"; Js.lit "dangling"])
    (fun _ => Returned (Js.lit "abc")).

(** A directory with two plain files. *)
Definition plainTree : FileTree :=
  mkFileTree
    (fun p => if Js.eqb p (Js.lit "/data") then Returned (mkStats true 64 0)
              else Returned (mkStats false 3 1))
    (fun _ => Returned [Js.lit "a.txt"; Js.lit "b.txt"])
    (fun _ => Returned (Js.lit "abc")).

(* ================================================================= *)
(** ** Basic facts about the runtime model *)

Lemma eqb_eq (a b : Js.str) : Js.eqb a b = true <-> a = b.
Proof.
  unfold Js.eqb. destruct (list_eq_dec N.eq_dec a b); split; congruence.
Qed.

Lemma eqb_refl (a : Js.str) : Js.eqb a a = true.
Proof. now apply eqb_eq. Qed.

Lemma eqb_neq (a b : Js.str) : Js.eqb a b = false <-> a <> b.
Proof.
  unfold Js.eqb. destruct (list_eq_dec N.eq_dec a b); split; congruence.
Qed.

Section MapFacts.
Variable V : Type.
Implicit Types (m : Js.Map V) (k : Js.str) (v : V).

Lemma get_delete_same m k : Js.get (Js.delete m k) k = None.
Proof.
  induction m as [|[k' v'] m IH]; simpl; auto.
  destruct (Js.eqb k' k) eqn:E; simpl; auto.
  now rewrite E.
Qed.

Lemma delete_absent m k : Js.get m k = None -> Js.delete m k = m.
Proof.
  induction m as [|[k' v'] m IH]; simpl; auto.
  destruct (Js.eqb k' k); [discriminate|].
  intros H. now rewrite IH.
Qed.

Lemma get_set_same m k v : Js.get (Js.set m k v) k = Some v.
Proof.
  induction m as [|[k' v'] m IH]; simpl.
  - now rewrite eqb_refl.
  - destruct (Js.eqb k' k) eqn:E; simpl; now rewrite E.
Qed.

Lemma in_keys_delete m k k' :
  In k' (Js.keys (Js.delete m k)) -> In k' (Js.keys m).
Proof.
  induction m as [|[k0 v0] m IH]; simpl; auto.
  destruct (Js.eqb k0 k); simpl; intuition.
Qed.

Lemma in_values_delete m k v :
  In v (Js.values (Js.delete m k)) -> In v (Js.values m).
Proof.
  induction m as [|[k0 v0] m IH]; simpl; auto.
  destruct (Js.eqb k0 k); simpl; intuition.
Qed.

End MapFacts.

(* ================================================================= *)
(** ** Running the listeners *)

Lemma logged_nil w : logged w [] = w.
Proof. destruct w; unfold logged; simpl. now rewrite app_nil_r. Qed.

Lemma logged_logged w es es' : logged (logged w es) es' = logged w (es ++ es').
Proof. unfold logged; simpl. now rewrite app_assoc. Qed.

Lemma windowAlive_logged w es : windowAlive (logged w es) = windowAlive w.
Proof. reflexivity. Qed.

Lemma pty_onData_run sessionId d w :
  pty_onData sessionId d w =
  (Returned tt,
   logged w (if windowAlive w then [ptyMessage sessionId d] else [])).
Proof.
  unfold pty_onData, bind, getWorld.
  destruct (windowAlive w); simpl; [reflexivity|].
  now rewrite logged_nil.
Qed.

Lemma stdout_onData_run sessionId d w :
  stdout_onData sessionId d w =
  (Returned tt,
   logged w (if windowAlive w then [stdoutMessage sessionId d] else [])).
Proof.
  unfold stdout_onData, bind, getWorld.
  destruct (windowAlive w); simpl; [reflexivity|].
  now rewrite logged_nil.
Qed.

Lemma stderr_onData_run sessionId d w :
  stderr_onData sessionId d w =
  (Returned tt,
   logged w (if windowAlive w then [stderrMessage sessionId d] else [])).
Proof.
  unfold stderr_onData, bind, getWorld.
  destruct (windowAlive w); simpl; [reflexivity|].
  now rewrite logged_nil.
Qed.

(** A listener that only logs, run over a sequence of chunks, logs the
    messages of the chunks in the order the chunks came. *)
Lemma forEach_logging {A} (f : A -> M unit) (msg : A -> Effect) :
  (forall x w, f x w =
               (Returned tt, logged w (if windowAlive w then [msg x] else []))) ->
  forall xs w,
    forEach f xs w =
    (Returned tt, logged w (if windowAlive w then map msg xs else [])).
Proof.
  intros Hf xs. induction xs as [|x xs IH]; intros w; simpl.
  - unfold ret. destruct (windowAlive w); now rewrite logged_nil.
  - unfold bind. rewrite Hf, IH, windowAlive_logged, logged_logged.
    now destruct (windowAlive w).
Qed.

(* ================================================================= *)
(** ** The prompt classifier *)

Lemma matchesAt_canonical pat : forall s s',
  map Js.canonicalize s = map Js.canonicalize s' ->
  Js.matchesAt pat s = Js.matchesAt pat s'.
Proof.
  induction pat as [|p pat IH]; intros [|c s] [|c' s'] H; simpl in *;
    try reflexivity; try discriminate.
  injection H as Hc Hs. now rewrite Hc, (IH _ _ Hs).
Qed.

Lemma anyMatch_canonical alts s s' :
  map Js.canonicalize s = map Js.canonicalize s' ->
  existsb (fun pat => Js.matchesAt pat s) alts =
  existsb (fun pat => Js.matchesAt pat s') alts.
Proof.
  intros H. induction alts as [|pat alts IH]; simpl; [reflexivity|].
  now rewrite IH, (matchesAt_canonical pat _ _ H).
Qed.

Lemma test_canonical alts : forall s s',
  map Js.canonicalize s = map Js.canonicalize s' ->
  Js.test alts s = Js.test alts s'.
Proof.
  induction s as [|c s IH]; intros [|c' s'] H; simpl in *;
    try reflexivity; try discriminate.
  injection H as Hc Hs.
  rewrite (IH _ Hs). f_equal.
  apply anyMatch_canonical. simpl. now rewrite Hc, Hs.
Qed.

Lemma canonicalize_lower c : Js.canonicalize (toLowerAscii c) = Js.canonicalize c.
Proof.
  unfold toLowerAscii.
  destruct (N.leb_spec 65 c), (N.leb_spec c 90); simpl;
    unfold Js.canonicalize;
    repeat match goal with
           | |- context [(?a <=? ?b)%N] => destruct (N.leb_spec a b); simpl
           end; lia.
Qed.

Lemma canonicalize_upper c : Js.canonicalize (toUpperAscii c) = Js.canonicalize c.
Proof.
  unfold toUpperAscii.
  destruct (N.leb_spec 97 c), (N.leb_spec c 122); simpl;
    unfold Js.canonicalize;
    repeat match goal with
           | |- context [(?a <=? ?b)%N] => destruct (N.leb_spec a b); simpl
           end; lia.
Qed.

Lemma classify_ignores_case f s :
  (forall c, Js.canonicalize (f c) = Js.canonicalize c) ->
  classify (map f s) = classify s.
Proof.
  intros Hf. apply test_canonical.
  rewrite map_map. apply map_ext. exact Hf.
Qed.

(** C5.  The classifier is a pure function of the chunk it is given:
    it answers the three reference inputs as listed, it ignores ASCII
    letter case, each backend flags every chunk with the classifier's
    answer on that chunk alone while leaving the state untouched apart
    from the message sent, and a phrase split over two chunks is
    therefore not detected although the joined text would be. *)
Theorem classify_stateless_case_insensitive :
  classify (Js.lit "Do you want to continue? (y/n)") = true /\
  classify (Js.lit "Listing files in /tmp") = false /\
  classify (Js.lit "Trust this MCP server?") = true /\
  (forall s, classify (map toLowerAscii s) = classify s /\
             classify (map toUpperAscii s) = classify s) /\
  (forall sessionId chunks w,
      forEach (pty_onData sessionId) chunks w =
      (Returned tt,
       logged w (if windowAlive w
                 then map (fun d => SendQOutput
                             (mkQOutput sessionId d (Some (classify d)) None))
                          chunks
                 else []))) /\
  (forall sessionId chunks w,
      forEach (stdout_onData sessionId) chunks w =
      (Returned tt,
       logged w (if windowAlive w
                 then map (fun d => SendQOutput
                             (mkQOutput sessionId (Js.Buffer_toString d)
                                (Some (classify (Js.Buffer_toString d))) None))
                          chunks
                 else []))) /\
  (classify (Js.lit "Tru") = false /\ classify (Js.lit "st?") = false /\
   classify (Js.cat (Js.lit "Tru") (Js.lit "st?")) = true).
Proof.
  repeat split; try reflexivity.
  - apply classify_ignores_case, canonicalize_lower.
  - apply classify_ignores_case, canonicalize_upper.
  - intros. apply (forEach_logging (pty_onData sessionId) (ptyMessage sessionId)).
    intros. apply pty_onData_run.
  - intros.
    apply (forEach_logging (stdout_onData sessionId) (stdoutMessage sessionId)).
    intros. apply stdout_onData_run.
Qed.

(* ================================================================= *)
(** ** [send-to-q] and [kill-session] *)

Lemma sessions_get_run k w :
  sessions_get k w = (Returned (Js.get (sessions w) k), w).
Proof. reflexivity. Qed.

Lemma adapterCall_try e raises w :
  tryCatch (adapterCall e raises ;; ret true) (fun _ => ret false) w =
  (Returned (match raises with None => true | Some _ => false end),
   logged w [e]).
Proof. unfold tryCatch, adapterCall, bind. now destruct raises. Qed.

(** C6.  [send-to-q] never raises.  For an unknown session id it
    returns false and does nothing.  For a registered session it
    attempts one write: the trimmed input followed by a carriage return
    on the pseudo-terminal backend, the input followed by a line feed on
    the child's standard input on the pipe backend; it returns true
    when the write returns and false when the write raises. *)
Theorem send_to_q_result a sessionId input w :
  send_to_q a sessionId input w =
  match Js.get (sessions w) sessionId with
  | None => (Returned false, w)
  | Some s =>
      (Returned (match writeRaises a s input with
                 | None => true
                 | Some _ => false
                 end),
       logged w [match type s with
                 | pty => PtyWrite (process s) (Js.cat (Js.trim input) Js.CR)
                 | spawn => StdinWrite (process s) (Js.cat input Js.LF)
                 end])
  end.
Proof.
  unfold send_to_q. unfold bind at 1. rewrite sessions_get_run.
  destruct (Js.get (sessions w) sessionId) as [s|]; [|reflexivity].
  unfold writeRaises. destruct (type s); apply adapterCall_try.
Qed.

Lemma kill_session_known a sessionId w s :
  Js.get (sessions w) sessionId = Some s ->
  kill_raises a (process s) None = None ->
  kill_session a sessionId w =
  (Returned true,
   withSessions (logged w [Kill (process s) None])
                (Js.delete (sessions w) sessionId)).
Proof.
  intros Hs Hk. unfold kill_session, sessions_get, bind, getWorld, ret.
  rewrite Hs. unfold adapterCall, bind. rewrite Hk. reflexivity.
Qed.

Lemma kill_session_unknown a sessionId w :
  Js.get (sessions w) sessionId = None ->
  kill_session a sessionId w = (Returned false, w).
Proof.
  intros Hs. unfold kill_session, sessions_get, bind, getWorld, ret.
  now rewrite Hs.
Qed.

Lemma sessions_delete_absent sessionId w :
  Js.get (sessions w) sessionId = None ->
  sessions_delete sessionId w = (Returned tt, w).
Proof.
  intros Hs. unfold sessions_delete, bind, getWorld, setSessions.
  rewrite (delete_absent _ _ Hs). now destruct w.
Qed.

(** C4.  For a live session, [kill-session] returns true and removes
    the entry; called again right away with the same id it returns
    false and changes nothing, and [sessions.delete] of the id that is
    no longer there is a no-op that does not raise. *)
Theorem kill_session_twice a a' sessionId w :
  live a w sessionId = true ->
  exists s w1,
    Js.get (sessions w) sessionId = Some s /\
    kill_session a sessionId w = (Returned true, w1) /\
    w1 = withSessions (logged w [Kill (process s) None])
                      (Js.delete (sessions w) sessionId) /\
    Js.get (sessions w1) sessionId = None /\
    kill_session a' sessionId w1 = (Returned false, w1) /\
    sessions_delete sessionId w1 = (Returned tt, w1).
Proof.
  unfold live. intros H.
  destruct (Js.get (sessions w) sessionId) as [s|] eqn:Hs; [|discriminate].
  destruct (kill_raises a (process s) None) eqn:Hk; [discriminate|].
  exists s. eexists. split; [reflexivity|].
  split; [apply (kill_session_known a sessionId w Hs Hk)|].
  split; [reflexivity|].
  assert (Hgone : Js.get (sessions
            (withSessions (logged w [Kill (process s) None])
                          (Js.delete (sessions w) sessionId))) sessionId = None)
    by (simpl; apply get_delete_same).
  split; [exact Hgone|].
  split; [now apply kill_session_unknown | now apply sessions_delete_absent].
Qed.

(** An instance: the session of [oneSession], killed twice. *)
Lemma kill_session_twice_witness :
  live quietAdapter (oneSession true) (Js.toString clock0) = true /\
  exists s w1,
    Js.get (sessions (oneSession true)) (Js.toString clock0) = Some s /\
    kill_session quietAdapter (Js.toString clock0) (oneSession true) =
      (Returned true, w1) /\
    w1 = withSessions (logged (oneSession true) [Kill (process s) None])
           (Js.delete (sessions (oneSession true)) (Js.toString clock0)) /\
    Js.get (sessions w1) (Js.toString clock0) = None /\
    kill_session quietAdapter (Js.toString clock0) w1 = (Returned false, w1) /\
    sessions_delete (Js.toString clock0) w1 = (Returned tt, w1).
Proof.
  split; [reflexivity|].
  apply (kill_session_twice quietAdapter quietAdapter
           (Js.toString clock0) (oneSession true)).
  reflexivity.
Defined.

(* ================================================================= *)
(** ** Shutdown *)

Lemma kill_guarded_run a signal s w :
  tryCatch (adapterCall (Kill (process s) signal)
                        (kill_raises a (process s) signal))
           (fun _ => ret tt) w =
  (Returned tt, logged w [Kill (process s) signal]).
Proof.
  unfold tryCatch, adapterCall, bind.
  now destruct (kill_raises a (process s) signal).
Qed.

Lemma forEach_kill a signal : forall ss w,
  forEach (fun session =>
             tryCatch
               (adapterCall (Kill (process session) signal)
                            (kill_raises a (process session) signal))
               (fun _ => ret tt)) ss w =
  (Returned tt, logged w (map (fun s => Kill (process s) signal) ss)).
Proof.
  induction ss as [|s ss IH]; intros w; simpl.
  - unfold ret. now rewrite logged_nil.
  - unfold bind. rewrite kill_guarded_run, IH, logged_logged. reflexivity.
Qed.

Lemma killAll_run a signal w :
  killAll a signal w = (Returned tt, logged w (killsFor (sessions w) signal)).
Proof. unfold killAll, bind, getWorld. apply forEach_kill. Qed.

Lemma close_app_run a w :
  close_app a w =
  (Returned (mkCloseResult true None),
   logged (withWindow
             (withSessions (logged w (killsFor (sessions w) (Some SIGTERM))) [])
             (if windowAlive w then None else mainWindow w))
          [QuitLater 100]).
Proof.
  unfold close_app, tryCatch. unfold bind at 1. rewrite killAll_run.
  unfold sessions_clear, bind, getWorld, setSessions, Js.clear. simpl.
  change (windowAlive _) with (windowAlive w).
  destruct (windowAlive w); reflexivity.
Qed.

Lemma window_all_closed_run a w :
  window_all_closed a w =
  (Returned tt,
   logged (withSessions (logged w (killsFor (sessions w) None)) []) [Quit]).
Proof.
  unfold window_all_closed. unfold bind at 1. rewrite killAll_run.
  reflexivity.
Qed.

Lemma window_close_run a w :
  window_close a w =
  (Returned tt,
   withWindow
     (withSessions (logged w (killsFor (sessions w) (Some SIGTERM))) [])
     None).
Proof.
  unfold window_close. unfold bind at 1. rewrite killAll_run.
  reflexivity.
Qed.

(** C9.  Whatever the adapters answer, the loop of a shutdown sends
    one kill request per registered session, in registry order, and
    leaves the registry as it was; [close-app], [window-all-closed]
    and the window's [close] handler then clear the registry, so they
    end with an empty registry and a trace extended by exactly these
    requests (followed by the quit request, if any); run again right
    away, each of them sends no kill request at all. *)
Theorem shutdown_kills_each_then_clears a a' signal w :
  killAll a signal w = (Returned tt, logged w (killsFor (sessions w) signal)) /\
  sessions (logged w (killsFor (sessions w) signal)) = sessions w /\
  List.length (killsFor (sessions w) signal) = Js.size (sessions w) /\
  (let w1 := snd (close_app a w) in
   let w2 := snd (close_app a' w1) in
   sessions w1 = [] /\
   trace w1 = trace w ++ killsFor (sessions w) (Some SIGTERM) ++ [QuitLater 100] /\
   sessions w2 = [] /\
   trace w2 = trace w1 ++ [QuitLater 100]) /\
  (let w1 := snd (window_all_closed a w) in
   let w2 := snd (window_all_closed a' w1) in
   sessions w1 = [] /\
   trace w1 = trace w ++ killsFor (sessions w) None ++ [Quit] /\
   sessions w2 = [] /\
   trace w2 = trace w1 ++ [Quit]) /\
  (let w1 := snd (window_close a w) in
   let w2 := snd (window_close a' w1) in
   sessions w1 = [] /\
   trace w1 = trace w ++ killsFor (sessions w) (Some SIGTERM) /\
   sessions w2 = [] /\
   trace w2 = trace w1).
Proof.
  split; [apply killAll_run|].
  split; [reflexivity|].
  split; [unfold killsFor, Js.values, Js.size; rewrite !length_map; reflexivity|].
  split; [|split].
  - cbv zeta. rewrite !close_app_run. cbn [snd].
    repeat split; simpl; rewrite ?app_nil_r, <- ?app_assoc; reflexivity.
  - cbv zeta. rewrite !window_all_closed_run. cbn [snd].
    repeat split; simpl; rewrite ?app_nil_r, <- ?app_assoc; reflexivity.
  - cbv zeta. rewrite !window_close_run. cbn [snd].
    repeat split; simpl; rewrite ?app_nil_r; reflexivity.
Qed.

(* ================================================================= *)
(** ** Error output *)

(** C10.  The stderr listener of the pipe backend sends, when the
    window is there, one message whose [isError] is true and which has
    no [isPrompt] field (the classifier is not consulted); the messages
    of the pseudo-terminal listener and of the stdout listener have an
    [isPrompt] field and no [isError] field. *)
Theorem stderr_flagged_not_classified sessionId buf text w :
  stderr_onData sessionId buf w =
    (Returned tt,
     logged w (if windowAlive w
               then [SendQOutput (mkQOutput sessionId (Js.Buffer_toString buf)
                                            None (Some true))]
               else [])) /\
  stdout_onData sessionId buf w =
    (Returned tt,
     logged w (if windowAlive w
               then [SendQOutput
                       (mkQOutput sessionId (Js.Buffer_toString buf)
                          (Some (classify (Js.Buffer_toString buf))) None)]
               else [])) /\
  pty_onData sessionId text w =
    (Returned tt,
     logged w (if windowAlive w
               then [SendQOutput
                       (mkQOutput sessionId text (Some (classify text)) None)]
               else [])).
Proof.
  split; [apply stderr_onData_run|].
  split; [apply stdout_onData_run | apply pty_onData_run].
Qed.

(* ================================================================= *)
(** ** The locator *)

Lemma probe_find h : forall paths,
  probe h paths = Returned (find (onDisk h) paths).
Proof.
  induction paths as [|p paths IH]; simpl; [reflexivity|].
  unfold onDisk at 1.
  destruct (existsSync h p) as [[|]|e]; simpl; auto.
Qed.

Lemma viaWhich_accepted h : viaWhich h = Returned (accepted h (whichAnswer h)).
Proof.
  unfold viaWhich, whichAnswer, accepted, onDisk.
  destruct (execSync h (Js.lit "which q")) as [out|e]; simpl; [|reflexivity].
  destruct (Js.truthy (Js.trim out)); simpl; [|reflexivity].
  now destruct (existsSync h (Js.trim out)) as [[|]|e].
Qed.

Lemma viaWhere_accepted h : viaWhere h = Returned (accepted h (whereAnswer h)).
Proof.
  unfold viaWhere, whereAnswer, accepted, onDisk.
  destruct (Js.eqb (platform h) (Js.lit "win32")); [|reflexivity].
  destruct (execSync h (Js.lit "where q")) as [out|e]; simpl; [|reflexivity].
  destruct (Js.truthy (Js.firstLine (Js.trim out))); simpl; [|reflexivity].
  now destruct (existsSync h (Js.firstLine (Js.trim out))) as [[|]|e].
Qed.

Lemma findQCliPath_run h : findQCliPath h = Returned (locate_spec h).
Proof.
  unfold findQCliPath, locate_spec.
  rewrite viaWhich_accepted. simpl.
  destruct (accepted h (whichAnswer h)); [reflexivity|].
  rewrite viaWhere_accepted. simpl.
  destruct (accepted h (whereAnswer h)); [reflexivity|].
  rewrite probe_find. simpl.
  now destruct (find (onDisk h) (searchPaths h)).
Qed.

Lemma accepted_onDisk h answer p :
  accepted h answer = Some p -> answer = Some p /\ onDisk h p = true.
Proof.
  unfold accepted. destruct answer as [q|]; [|discriminate].
  destruct (onDisk h q) eqn:E; [|discriminate].
  intros [= <-]. auto.
Qed.

Lemma truthy_nonempty s : Js.truthy s = true -> s <> [].
Proof. destruct s; [discriminate | discriminate]. Qed.

Lemma whichAnswer_nonempty h p : whichAnswer h = Some p -> p <> [].
Proof.
  unfold whichAnswer.
  destruct (execSync h (Js.lit "which q")) as [out|e]; [|discriminate].
  destruct (Js.truthy (Js.trim out)) eqn:E; [|discriminate].
  intros [= <-]. now apply truthy_nonempty.
Qed.

Lemma whereAnswer_nonempty h p : whereAnswer h = Some p -> p <> [].
Proof.
  unfold whereAnswer.
  destruct (Js.eqb (platform h) (Js.lit "win32")); [|discriminate].
  destruct (execSync h (Js.lit "where q")) as [out|e]; [|discriminate].
  destruct (Js.truthy (Js.firstLine (Js.trim out))) eqn:E; [|discriminate].
  intros [= <-]. now apply truthy_nonempty.
Qed.

Lemma cat_nonempty a b : b <> [] -> Js.cat a b <> [].
Proof.
  unfold Js.cat. intros Hb H. apply app_eq_nil in H. now destruct H.
Qed.

Lemma searchPaths_nonempty h : Forall (fun p => p <> []) (searchPaths h).
Proof.
  unfold searchPaths.
  destruct (Js.eqb (platform h) (Js.lit "darwin")
            || Js.eqb (platform h) (Js.lit "linux"));
    [|destruct (Js.eqb (platform h) (Js.lit "win32"))];
    repeat constructor; try discriminate; apply cat_nonempty; discriminate.
Qed.

Lemma locate_spec_nonempty h : locate_spec h <> [].
Proof.
  unfold locate_spec.
  destruct (accepted h (whichAnswer h)) as [p|] eqn:E1.
  { apply accepted_onDisk in E1. now apply (whichAnswer_nonempty h). }
  destruct (accepted h (whereAnswer h)) as [p|] eqn:E2.
  { apply accepted_onDisk in E2. now apply (whereAnswer_nonempty h). }
  destruct (find (onDisk h) (searchPaths h)) as [p|] eqn:E3; [|discriminate].
  apply find_some in E3. destruct E3 as [Hin _].
  pose proof (searchPaths_nonempty h) as HF.
  rewrite Forall_forall in HF. now apply HF.
Qed.

(** C7.  On every host [findQCliPath] returns, and never the empty
    string: it returns the answer of [which] (or, on Windows, of
    [where]) when that path exists on disk, else the first well-known
    path of the platform that exists on disk, else the bare name [q].
    (The command name is fixed to [q] in main.js.) *)
Theorem findQCliPath_total h :
  findQCliPath h = Returned (locate_spec h) /\
  locate_spec h <> [] /\
  match accepted h (whichAnswer h), accepted h (whereAnswer h) with
  | Some p, _ => locate_spec h = p /\ onDisk h p = true
  | None, Some p => locate_spec h = p /\ onDisk h p = true
  | None, None =>
      match find (onDisk h) (searchPaths h) with
      | Some p => locate_spec h = p /\ In p (searchPaths h) /\ onDisk h p = true
      | None => locate_spec h = Js.lit "q" /\
                Forall (fun p => onDisk h p = false) (searchPaths h)
      end
  end.
Proof.
  split; [apply findQCliPath_run|].
  split; [apply locate_spec_nonempty|].
  unfold locate_spec.
  destruct (accepted h (whichAnswer h)) as [p|] eqn:E1.
  { apply accepted_onDisk in E1. now destruct E1. }
  destruct (accepted h (whereAnswer h)) as [p|] eqn:E2.
  { apply accepted_onDisk in E2. now destruct E2. }
  destruct (find (onDisk h) (searchPaths h)) as [p|] eqn:E3.
  - apply find_some in E3. now destruct E3.
  - split; [reflexivity|]. apply Forall_forall. intros p Hp.
    now apply (find_none _ _ E3).
Qed.

(* ================================================================= *)
(** ** Session creation and exit *)

Lemma create_session_run h a now w :
  create_session h a now w =
  match spawn_raises a (backendOf w) with
  | Some e => (Threw e, w)
  | None => (Returned (Js.toString now), created h now w)
  end.
Proof.
  unfold create_session, tryCatch. unfold bind at 1, liftR.
  rewrite findQCliPath_run. unfold bind at 1, getWorld.
  unfold backendOf, created, childPATH, backendOf.
  destruct (useNodePty w) eqn:U; unfold bind, spawnProcess;
    (destruct (spawn_raises a _); [reflexivity|]); simpl; rewrite U;
    reflexivity.
Qed.

Lemma onExit_run sessionId code w :
  onExit sessionId code w =
  (Returned tt,
   logged (withSessions w (Js.delete (sessions w) sessionId))
          (if windowAlive w
           then [SendSessionClosed (mkSessionClosed sessionId code None)]
           else [])).
Proof.
  unfold onExit, sessions_delete, bind, getWorld, setSessions. simpl.
  change (windowAlive _) with (windowAlive w).
  destruct (windowAlive w); [reflexivity|].
  unfold ret. now rewrite logged_nil.
Qed.

Lemma onError_run sessionId error w :
  onError sessionId error w =
  (Returned tt,
   logged (withSessions w (Js.delete (sessions w) sessionId))
          (if windowAlive w
           then [SendSessionClosed
                   (mkSessionClosed sessionId (Some (-1)%Z)
                                    (Some (message error)))]
           else [])).
Proof.
  unfold onError, sessions_delete, bind, getWorld, setSessions. simpl.
  change (windowAlive _) with (windowAlive w).
  destruct (windowAlive w); [reflexivity|].
  unfold ret. now rewrite logged_nil.
Qed.

Lemma dispatch_run p ty listener w c :
  listenerOf (listeners w) p = Some c ->
  c_type c = ty ->
  dispatch p ty listener w = listener (c_sessionId c) w.
Proof.
  intros Hl Ht. unfold dispatch, bind, getWorld. rewrite Hl, Ht.
  now destruct ty.
Qed.

Lemma exitEvent_step h a p ty sessionId code signal w :
  listenerOf (listeners w) p = Some (mkClosure ty sessionId) ->
  step h a (exitEvent ty p code signal) w =
  logged (withSessions w (Js.delete (sessions w) sessionId))
         (if windowAlive w
          then [SendSessionClosed (mkSessionClosed sessionId code None)]
          else []).
Proof.
  intros Hl. unfold step, exitEvent.
  destruct ty; simpl;
    rewrite (@dispatch_run _ _ _ _ _ Hl eq_refl); simpl;
    now rewrite onExit_run.
Qed.

(** C2, as the code has it.  When a process reports its exit to the
    listeners [create-session] installed for [sessionId], the id is
    removed from the registry; if [mainWindow] exists and is not
    destroyed, exactly one ['session-closed'] message with that id and
    that exit code is sent, and nothing else; otherwise no message is
    sent. *)
Theorem exit_removes_and_notifies_open_window
        h a p ty sessionId code signal w :
  listenerOf (listeners w) p = Some (mkClosure ty sessionId) ->
  let w' := step h a (exitEvent ty p code signal) w in
  Js.get (sessions w') sessionId = None /\
  trace w' =
    trace w ++
    (if windowAlive w
     then [SendSessionClosed (mkSessionClosed sessionId code None)]
     else []).
Proof.
  intros Hl w'. subst w'. rewrite (@exitEvent_step h a _ _ _ code signal _ Hl).
  split; [simpl; apply get_delete_same | reflexivity].
Qed.

(** An instance: the pseudo-terminal process of [oneSession] exits with
    code 0 while the window is open. *)
Lemma exit_removes_and_notifies_open_window_witness :
  listenerOf (listeners (oneSession true)) 0 =
    Some (mkClosure pty (Js.toString clock0)) /\
  let w' := step bareHost quietAdapter
                 (exitEvent pty 0 (Some 0%Z) None) (oneSession true) in
  Js.get (sessions w') (Js.toString clock0) = None /\
  trace w' =
    trace (oneSession true) ++
    (if windowAlive (oneSession true)
     then [SendSessionClosed
             (mkSessionClosed (Js.toString clock0) (Some 0%Z) None)]
     else []).
Proof.
  split; [reflexivity|].
  apply (@exit_removes_and_notifies_open_window bareHost quietAdapter
           0 pty (Js.toString clock0) (Some 0%Z) None (oneSession true)).
  reflexivity.
Defined.

(** C2 fails as stated: a session is created, [close-app] sets
    [mainWindow] to null, and the exit the process then reports reaches
    its listener but produces no ['session-closed'] message. *)
Lemma exit_after_close_app_not_notified :
  let w := step bareHost quietAdapter CloseApp (oneSession true) in
  listenerOf (listeners w) 0 = Some (mkClosure pty (Js.toString clock0)) /\
  collect sessionClosedOf
          (trace (step bareHost quietAdapter (PtyExit 0 (Some 0%Z) None) w))
  = [].
Proof. vm_compute. split; reflexivity. Qed.

(** C8, as the code has it.  If spawning raises, [create-session]
    itself fails with that error and leaves the state as it was: the
    session is not registered and no ['session-closed'] message is
    sent.  If a pipe-backend process emits ['error'], its listener
    removes the session id from the registry and, if [mainWindow]
    exists and is not destroyed, sends exactly one ['session-closed']
    message with that id, code -1 and the error message. *)
Theorem spawn_failure_reported h a now sessionId error w :
  create_session h a now w =
    match spawn_raises a (backendOf w) with
    | Some e => (Threw e, w)
    | None => (Returned (Js.toString now), created h now w)
    end /\
  onError sessionId error w =
    (Returned tt,
     logged (withSessions w (Js.delete (sessions w) sessionId))
            (if windowAlive w
             then [SendSessionClosed
                     (mkSessionClosed sessionId (Some (-1)%Z)
                                      (Some (message error)))]
             else [])) /\
  Js.get (sessions (snd (onError sessionId error w))) sessionId = None.
Proof.
  split; [apply create_session_run|].
  split; [apply onError_run|].
  rewrite onError_run. simpl. apply get_delete_same.
Qed.

(** C8 fails as stated: with a window open and the pseudo-terminal
    backend, a refused spawn makes [create-session] raise and no
    ['session-closed'] message is sent. *)
Lemma refused_spawn_sends_no_session_closed :
  let w := step bareHost quietAdapter CreateWindow (initial true) in
  windowAlive w = true /\
  create_session bareHost refusingAdapter clock0 w =
    (Threw (mkError (Js.lit "spawn q ENOENT")), w) /\
  collect sessionClosedOf
          (trace (snd (create_session bareHost refusingAdapter clock0 w)))
  = [].
Proof. vm_compute. repeat split; reflexivity. Qed.

(* ================================================================= *)
(** ** Session identifiers and the registry invariant *)

Lemma lit_inj s s' : Js.lit s = Js.lit s' -> s = s'.
Proof.
  unfold Js.lit. intros H.
  rewrite <- (string_of_list_ascii_of_string s),
          <- (string_of_list_ascii_of_string s').
  f_equal.
  revert H. generalize (list_ascii_of_string s) (list_ascii_of_string s').
  induction l as [|c l IH]; intros [|c' l'] H; simpl in H;
    try discriminate; [reflexivity|].
  injection H as Hc Hl. f_equal; [|now apply IH].
  now rewrite <- (ascii_N_embedding c), <- (ascii_N_embedding c'), Hc.
Qed.

Lemma to_int_proper n :
  Z.to_int n <> Decimal.Pos Decimal.Nil /\ Z.to_int n <> Decimal.Neg Decimal.Nil.
Proof.
  destruct n as [|p|p]; simpl; split; try discriminate;
    intros [= H]; now apply (Unsigned.to_uint_nonnil p).
Qed.

(** The decimal rendering of an integer determines the integer. *)
Lemma toString_inj n n' : Js.toString n = Js.toString n' -> n = n'.
Proof.
  unfold Js.toString. intros H. apply lit_inj in H.
  apply to_int_inj.
  destruct (to_int_proper n) as [Hp Hn], (to_int_proper n') as [Hp' Hn'].
  pose proof (NilZero.isi _ Hp Hn) as E.
  pose proof (NilZero.isi _ Hp' Hn') as E'.
  rewrite H in E. rewrite E in E'. now injection E'.
Qed.

Section MapInvariants.
Variables (V B : Type) (f : V -> B).
Implicit Types (m : Js.Map V) (k : Js.str) (v : V).

Lemma in_keys_set m k v k' :
  In k' (Js.keys (Js.set m k v)) -> k' = k \/ In k' (Js.keys m).
Proof using.
  induction m as [|[k0 v0] m IH]; simpl.
  - intros [H|[]]; auto.
  - destruct (Js.eqb k0 k); simpl; [auto|].
    intros [H|H]; [auto|]. destruct (IH H); auto.
Qed.

Lemma in_values_set m k v v' :
  In v' (Js.values (Js.set m k v)) -> v' = v \/ In v' (Js.values m).
Proof using.
  induction m as [|[k0 v0] m IH]; simpl.
  - intros [H|[]]; auto.
  - destruct (Js.eqb k0 k); simpl.
    + intros [H|H]; auto.
    + intros [H|H]; [auto|]. destruct (IH H); auto.
Qed.

Lemma NoDup_keys_set m k v :
  NoDup (Js.keys m) -> NoDup (Js.keys (Js.set m k v)).
Proof using.
  induction m as [|[k0 v0] m IH]; simpl; intros H.
  - constructor; [intros []|constructor].
  - inversion H as [|? ? Hnotin Hrest]; subst.
    destruct (Js.eqb k0 k) eqn:E; simpl; [now constructor|].
    constructor; [|now apply IH].
    intros Hin. apply in_keys_set in Hin. destruct Hin as [->|Hin]; auto.
    now rewrite eqb_refl in E.
Qed.

Lemma NoDup_keys_delete m k :
  NoDup (Js.keys m) -> NoDup (Js.keys (Js.delete m k)).
Proof using.
  induction m as [|[k0 v0] m IH]; simpl; intros H; [constructor|].
  inversion H as [|? ? Hnotin Hrest]; subst.
  destruct (Js.eqb k0 k); simpl; [now apply IH|].
  constructor; [|now apply IH].
  intros Hin. now apply in_keys_delete in Hin.
Qed.

Lemma NoDup_values_delete m k :
  NoDup (map f (Js.values m)) -> NoDup (map f (Js.values (Js.delete m k))).
Proof.
  induction m as [|[k0 v0] m IH]; simpl; intros H; [constructor|].
  inversion H as [|? ? Hnotin Hrest]; subst.
  destruct (Js.eqb k0 k); simpl; [now apply IH|].
  constructor; [|now apply IH].
  intros Hin. apply in_map_iff in Hin. destruct Hin as (v & Hv & Hin).
  apply in_values_delete in Hin. apply Hnotin.
  rewrite <- Hv. now apply in_map.
Qed.

Lemma NoDup_values_set m k v :
  NoDup (map f (Js.values m)) ->
  ~ In (f v) (map f (Js.values m)) ->
  NoDup (map f (Js.values (Js.set m k v))).
Proof.
  induction m as [|[k0 v0] m IH]; simpl; intros H Hfresh.
  - constructor; [intros []|constructor].
  - inversion H as [|? ? Hnotin Hrest]; subst.
    destruct (Js.eqb k0 k); simpl.
    + constructor; [tauto | assumption].
    + constructor; [|apply IH; tauto].
      intros Hin. apply in_map_iff in Hin. destruct Hin as (v' & Hv & Hin).
      apply in_values_set in Hin. destruct Hin as [->|Hin].
      * apply Hfresh. left. congruence.
      * apply Hnotin. rewrite <- Hv. now apply in_map.
Qed.
End MapInvariants.

Lemma send_to_q_logs a sessionId input w :
  exists es, snd (send_to_q a sessionId input w) = logged w es.
Proof.
  unfold send_to_q. unfold bind at 1. rewrite sessions_get_run.
  destruct (Js.get (sessions w) sessionId) as [s|].
  - destruct (type s); rewrite adapterCall_try; eexists; reflexivity.
  - exists []. simpl. now rewrite logged_nil.
Qed.

Lemma kill_session_run a sessionId w :
  kill_session a sessionId w =
  match Js.get (sessions w) sessionId with
  | None => (Returned false, w)
  | Some s =>
      match kill_raises a (process s) None with
      | None =>
          (Returned true,
           withSessions (logged w [Kill (process s) None])
                        (Js.delete (sessions w) sessionId))
      | Some e => (Threw e, logged w [Kill (process s) None])
      end
  end.
Proof.
  unfold kill_session. unfold bind at 1. rewrite sessions_get_run.
  destruct (Js.get (sessions w) sessionId) as [s|]; [|reflexivity].
  unfold adapterCall, bind.
  now destruct (kill_raises a (process s) None).
Qed.

Lemma dispatch_cases p ty listener w :
  dispatch p ty listener w =
  match listenerOf (listeners w) p with
  | Some c =>
      if SessionType_eqb (c_type c) ty then listener (c_sessionId c) w
      else (Returned tt, w)
  | None => (Returned tt, w)
  end.
Proof.
  unfold dispatch, bind, getWorld.
  destruct (listenerOf (listeners w) p) as [c|]; [|reflexivity].
  now destruct (SessionType_eqb (c_type c) ty).
Qed.

(** What one turn of the event loop can do to the registry. *)
Inductive registry_change (w w' : World) : Prop :=
| rc_same :
    sessions w' = sessions w -> spawned w' = spawned w ->
    registry_change w w'
| rc_delete k :
    sessions w' = Js.delete (sessions w) k -> spawned w' = spawned w ->
    registry_change w w'
| rc_clear :
    sessions w' = [] -> spawned w' = spawned w ->
    registry_change w w'
| rc_create k ty :
    sessions w' = Js.set (sessions w) k (mkSession (spawned w) ready ty) ->
    spawned w' = S (spawned w) ->
    registry_change w w'.

Lemma step_registry_change h a ev w : registry_change w (step h a ev w).
Proof.
  unfold step. destruct ev; simpl; unfold discard; simpl.
  - rewrite create_session_run.
    destruct (spawn_raises a (backendOf w)); simpl.
    + now apply rc_same.
    + now apply rc_create with (k := Js.toString now) (ty := backendOf w).
  - destruct (send_to_q_logs a sessionId input w) as [es ->].
    now apply rc_same.
  - rewrite kill_session_run.
    destruct (Js.get (sessions w) sessionId) as [s|]; [|now apply rc_same].
    destruct (kill_raises a (process s) None);
      [now apply rc_same | now apply rc_delete with (k := sessionId)].
  - rewrite close_app_run. now apply rc_clear.
  - now apply rc_same.
  - unfold destroyWindow, bind, getWorld.
    destruct (mainWindow w); now apply rc_same.
  - rewrite window_close_run. now apply rc_clear.
  - rewrite window_all_closed_run. now apply rc_clear.
  - rewrite dispatch_cases.
    destruct (listenerOf (listeners w) p) as [c|]; [|now apply rc_same].
    destruct (SessionType_eqb (c_type c) pty); [|now apply rc_same].
    rewrite pty_onData_run. now apply rc_same.
  - rewrite dispatch_cases.
    destruct (listenerOf (listeners w) p) as [c|]; [|now apply rc_same].
    destruct (SessionType_eqb (c_type c) pty); [|now apply rc_same].
    rewrite onExit_run. now apply rc_delete with (k := c_sessionId c).
  - rewrite dispatch_cases.
    destruct (listenerOf (listeners w) p) as [c|]; [|now apply rc_same].
    destruct (SessionType_eqb (c_type c) spawn); [|now apply rc_same].
    rewrite stdout_onData_run. now apply rc_same.
  - rewrite dispatch_cases.
    destruct (listenerOf (listeners w) p) as [c|]; [|now apply rc_same].
    destruct (SessionType_eqb (c_type c) spawn); [|now apply rc_same].
    rewrite stderr_onData_run. now apply rc_same.
  - rewrite dispatch_cases.
    destruct (listenerOf (listeners w) p) as [c|]; [|now apply rc_same].
    destruct (SessionType_eqb (c_type c) spawn); [|now apply rc_same].
    rewrite onExit_run. now apply rc_delete with (k := c_sessionId c).
  - rewrite dispatch_cases.
    destruct (listenerOf (listeners w) p) as [c|]; [|now apply rc_same].
    destruct (SessionType_eqb (c_type c) spawn); [|now apply rc_same].
    rewrite onError_run. now apply rc_delete with (k := c_sessionId c).
Qed.

Lemma registry_change_inv w w' :
  registry_change w w' -> registry_inv w -> registry_inv w'.
Proof.
  unfold registry_inv, registry_wf.
  intros [Hs Hn|k Hs Hn|Hs Hn|k ty Hs Hn] [[Hk Hp] Hlt];
    rewrite Hs, Hn.
  - auto.
  - repeat split.
    + now apply NoDup_keys_delete.
    + now apply NoDup_values_delete.
    + rewrite Forall_forall in *. intros s Hin.
      apply Hlt. now apply in_values_delete in Hin.
  - repeat split; constructor.
  - assert (Hfresh : ~ In (spawned w) (map process (Js.values (sessions w)))).
    { intros Hin. apply in_map_iff in Hin. destruct Hin as (s & Hs' & Hin).
      rewrite Forall_forall in Hlt. specialize (Hlt _ Hin). lia. }
    repeat split.
    + now apply NoDup_keys_set.
    + now apply NoDup_values_set.
    + rewrite Forall_forall in *. intros s Hin.
      apply in_values_set in Hin. destruct Hin as [->|Hin]; simpl; [lia|].
      specialize (Hlt _ Hin). lia.
Qed.

Lemma reachable_registry_inv w : reachable w -> registry_inv w.
Proof.
  induction 1 as [nodePty|h a ev w Hr IH].
  - repeat split; constructor.
  - exact (registry_change_inv (step_registry_change h a ev w) IH).
Qed.

Lemma create_session_id h a now w sessionId :
  fst (create_session h a now w) = Returned sessionId ->
  sessionId = Js.toString now.
Proof.
  rewrite create_session_run.
  destruct (spawn_raises a (backendOf w)); simpl; congruence.
Qed.

(** C1, as the code has it.  The id a session creation returns is the
    decimal rendering of the clock reading it took, so two creations
    whose readings differ return different ids; and in every state the
    main process can reach, the registry holds no two entries under the
    same id and no two entries for the same process. *)
Theorem session_ids_distinct_for_distinct_clock_readings
        w h1 a1 now1 w1 id1 h2 a2 now2 w2 id2 :
  reachable w ->
  fst (create_session h1 a1 now1 w1) = Returned id1 ->
  fst (create_session h2 a2 now2 w2) = Returned id2 ->
  now1 <> now2 ->
  id1 = Js.toString now1 /\ id2 = Js.toString now2 /\ id1 <> id2 /\
  registry_wf w.
Proof.
  intros Hr H1 H2 Hneq.
  apply create_session_id in H1. apply create_session_id in H2. subst.
  repeat split; try (now apply (reachable_registry_inv Hr)).
  intros H. now apply toString_inj in H.
Qed.

(** An instance: two creations one millisecond apart. *)
Lemma session_ids_distinct_for_distinct_clock_readings_witness :
  Js.toString clock0 = Js.toString clock0 /\
  Js.toString (clock0 + 1) = Js.toString (clock0 + 1) /\
  Js.toString clock0 <> Js.toString (clock0 + 1) /\
  registry_wf (oneSession true).
Proof.
  apply (@session_ids_distinct_for_distinct_clock_readings
           (oneSession true)
           bareHost quietAdapter clock0 (initial true) (Js.toString clock0)
           bareHost quietAdapter (clock0 + 1)%Z (oneSession true)
           (Js.toString (clock0 + 1))).
  - exact (reach_step bareHost quietAdapter (CreateSession clock0)
             (reach_step bareHost quietAdapter CreateWindow
                (reach_initial true))).
  - reflexivity.
  - reflexivity.
  - unfold clock0. lia.
Defined.

(** C1 fails as stated: two session creations that read the same clock
    value (two calls within one millisecond) both succeed and return
    the same id; the id is allocated a second time while the first
    session is still registered, and the registry ends with a single
    entry for the two processes spawned. *)
Lemma same_clock_reading_same_session_id :
  let w0 := step bareHost quietAdapter CreateWindow (initial true) in
  let c1 := create_session bareHost quietAdapter clock0 w0 in
  let c2 := create_session bareHost quietAdapter clock0 (snd c1) in
  fst c1 = Returned (Js.toString clock0) /\
  fst c2 = Returned (Js.toString clock0) /\
  Js.keys (sessions (snd c1)) = [Js.toString clock0] /\
  spawned (snd c2) = 2 /\
  Js.size (sessions (snd c2)) = 1.
Proof. vm_compute. repeat split; reflexivity. Qed.

(* ================================================================= *)
(** ** Output payloads *)

Local Open Scope N_scope.

(** Resolve the comparisons of the decoder against the bounds at hand. *)
Ltac tests :=
  repeat (match goal with
          | |- context [N.leb ?a ?b] => destruct (N.leb_spec a b); try lia
          | |- context [N.ltb ?a ?b] => destruct (N.ltb_spec a b); try lia
          | |- context [N.eqb ?a ?b] => destruct (N.eqb_spec a b); try lia
          end; cbn [andb orb]).

(** Linear arithmetic with division and remainder by constants. *)
Ltac divlia := zify; Z.to_euclidean_division_equations; lia.

Lemma land_low_bits y k a :
  a < 2 ^ k -> N.land (y * 2 ^ k + a) (N.ones k) = a.
Proof.
  intros H. rewrite N.land_ones, N.add_comm, N.Div0.mod_add.
  now apply N.mod_small.
Qed.

Lemma lor_shiftl_low acc x :
  x < 64 -> N.lor (N.shiftl acc 6) x = acc * 64 + x.
Proof.
  intros H.
  assert (Hd : N.land (N.shiftl acc 6) x = 0).
  { apply N.bits_inj. intros m. rewrite N.land_spec, N.bits_0.
    destruct (N.lt_ge_cases m 6) as [Hm|Hm].
    - now rewrite N.shiftl_spec_low.
    - rewrite (N.bits_above_log2 x m), andb_false_r; [reflexivity|].
      destruct (N.eq_dec x 0) as [->|Hx]; [simpl; lia|].
      apply N.log2_lt_pow2; [lia|].
      apply N.lt_le_trans with (2 ^ 6); [exact H|].
      apply N.pow_le_mono_r; lia. }
  rewrite <- N.lxor_lor by exact Hd.
  rewrite <- N.add_nocarry_lxor by exact Hd.
  now rewrite N.shiftl_mul_pow2.
Qed.

Lemma cont_byte x : x < 64 -> N.land (0x80 + x) 0x3F = x.
Proof. intros H. now apply (land_low_bits 2 6). Qed.

Lemma decode2 a x rest :
  2 <= a < 32 -> x < 64 ->
  Js.utf8_decode None (0xC0 + a :: 0x80 + x :: rest) =
  (a * 64 + x) :: Js.utf8_decode None rest.
Proof.
  intros Ha Hx.
  assert (E1 : N.land (0xC0 + a) 0x1F = a)
    by (apply (land_low_bits 6 5); simpl; lia).
  cbn [Js.utf8_decode Js.utf8_step]. unfold Js.utf8_start.
  tests. cbn [Js.utf8_decode Js.utf8_step Js.lo Js.hi Js.more Js.acc].
  tests. cbn [app].
  rewrite E1, (@cont_byte x Hx), (@lor_shiftl_low _ x Hx). reflexivity.
Qed.

Lemma decode3 a y x rest :
  a < 16 -> y < 64 -> x < 64 ->
  (a = 0 -> 32 <= y) -> (a = 13 -> y < 32) ->
  Js.utf8_decode None (0xE0 + a :: 0x80 + y :: 0x80 + x :: rest) =
  ((a * 64 + y) * 64 + x) :: Js.utf8_decode None rest.
Proof.
  intros Ha Hy Hx Hlo Hhi.
  assert (E1 : N.land (0xE0 + a) 0xF = a)
    by (apply (land_low_bits 14 4); simpl; lia).
  cbn [Js.utf8_decode Js.utf8_step]. unfold Js.utf8_start.
  tests; cbn [Js.utf8_decode Js.utf8_step Js.lo Js.hi Js.more Js.acc];
    tests; cbn [Js.utf8_decode Js.utf8_step Js.lo Js.hi Js.more Js.acc];
    tests; cbn [app];
    rewrite E1, (@cont_byte y Hy), (@cont_byte x Hx),
      (@lor_shiftl_low _ y Hy), (@lor_shiftl_low _ x Hx); reflexivity.
Qed.

Lemma decode4 a z y x rest :
  a <= 4 -> z < 64 -> y < 64 -> x < 64 ->
  (a = 0 -> 16 <= z) -> (a = 4 -> z < 16) ->
  Js.utf8_decode None
    (0xF0 + a :: 0x80 + z :: 0x80 + y :: 0x80 + x :: rest) =
  (((a * 64 + z) * 64 + y) * 64 + x) :: Js.utf8_decode None rest.
Proof.
  intros Ha Hz Hy Hx Hlo Hhi.
  assert (E1 : N.land (0xF0 + a) 0x7 = a)
    by (apply (land_low_bits 30 3); simpl; lia).
  cbn [Js.utf8_decode Js.utf8_step]. unfold Js.utf8_start.
  tests; cbn [Js.utf8_decode Js.utf8_step Js.lo Js.hi Js.more Js.acc];
    tests; cbn [Js.utf8_decode Js.utf8_step Js.lo Js.hi Js.more Js.acc];
    tests; cbn [Js.utf8_decode Js.utf8_step Js.lo Js.hi Js.more Js.acc];
    tests; cbn [app];
    rewrite E1, (@cont_byte z Hz), (@cont_byte y Hy), (@cont_byte x Hx),
      (@lor_shiftl_low _ z Hz), (@lor_shiftl_low _ y Hy),
      (@lor_shiftl_low _ x Hx); reflexivity.
Qed.

(** Decoding the encoding of a scalar value gives the value back and
    leaves the decoder in its start state. *)
Lemma decode_encode cp rest :
  isScalar cp = true ->
  Js.utf8_decode None (utf8_encode cp ++ rest) =
  cp :: Js.utf8_decode None rest.
Proof.
  unfold isScalar, utf8_encode. intros Hs.
  assert (Hr : cp < 0xD800 \/ 0xDFFF < cp < 0x110000).
  { apply orb_true_iff in Hs. destruct Hs as [H|H].
    - left. now apply N.ltb_lt.
    - right. apply andb_true_iff in H. destruct H as [H1 H2].
      split; now apply N.ltb_lt. }
  clear Hs.
  destruct (N.ltb_spec cp 0x80) as [H1|H1].
  { cbn [app Js.utf8_decode Js.utf8_step]. unfold Js.utf8_start.
    destruct (N.leb_spec cp 0x7F); [reflexivity | lia]. }
  destruct (N.ltb_spec cp 0x800) as [H2|H2].
  { cbn [app]. rewrite decode2; [f_equal | |]. all: divlia. }
  destruct (N.ltb_spec cp 0x10000) as [H3|H3].
  { cbn [app]. rewrite decode3; [f_equal | | | | |]. all: divlia. }
  cbn [app]. rewrite decode4; [f_equal | | | | | |]. all: divlia.
Qed.

Lemma decode_encode_all cps :
  Forall (fun cp => isScalar cp = true) cps ->
  Js.utf8_decode None (flat_map utf8_encode cps) = cps.
Proof.
  induction 1 as [|cp cps Hcp _ IH]; simpl; [reflexivity|].
  now rewrite decode_encode, IH.
Qed.

Lemma toString_of_encoding buf cps :
  encodes buf cps -> Js.Buffer_toString buf = flat_map Js.utf16 cps.
Proof.
  intros [Hs Hb]. unfold Js.Buffer_toString.
  now rewrite Hb, decode_encode_all.
Qed.

Local Close Scope N_scope.

(** C3, as the code has it.  While [mainWindow] exists and is not
    destroyed, the chunks of a session produce one ['q-output'] message
    each, in the order they arrive.  On the pseudo-terminal backend the
    payload is the string handed over by the adapter, unchanged.  On
    the pipe backend the payload is [data.toString()], the UTF-8
    decoding of the chunk: for a chunk that is the UTF-8 encoding of a
    text it is exactly that text, with nothing reformatted. *)
Theorem output_in_order_payload_decoded sessionId w texts chunks :
  windowAlive w = true ->
  forEach (pty_onData sessionId) texts w =
    (Returned tt,
     logged w (map (fun d => SendQOutput
                      (mkQOutput sessionId d (Some (classify d)) None))
                   texts)) /\
  forEach (stdout_onData sessionId) chunks w =
    (Returned tt,
     logged w (map (fun b => SendQOutput
                      (mkQOutput sessionId (Js.Buffer_toString b)
                         (Some (classify (Js.Buffer_toString b))) None))
                   chunks)) /\
  (forall buf cps,
      encodes buf cps -> Js.Buffer_toString buf = flat_map Js.utf16 cps).
Proof.
  intros Hw. split; [|split].
  - rewrite (forEach_logging (pty_onData sessionId) (ptyMessage sessionId)).
    + now rewrite Hw.
    + intros. apply pty_onData_run.
  - rewrite (forEach_logging (stdout_onData sessionId)
                             (stdoutMessage sessionId)).
    + now rewrite Hw.
    + intros. apply stdout_onData_run.
  - apply toString_of_encoding.
Qed.

(** An instance: three chunks on each backend with the window open. *)
Lemma output_in_order_payload_decoded_witness :
  windowAlive (oneSession false) = true /\
  forEach (pty_onData (Js.toString clock0))
          [Js.lit "a"; Js.lit "b"; Js.lit "c"] (oneSession false) =
    (Returned tt,
     logged (oneSession false)
            (map (fun d => SendQOutput
                    (mkQOutput (Js.toString clock0) d (Some (classify d)) None))
                 [Js.lit "a"; Js.lit "b"; Js.lit "c"])) /\
  forEach (stdout_onData (Js.toString clock0))
          [[Byte.x61]; [Byte.x0d; Byte.x0a]; [Byte.xc3; Byte.xa9]]
          (oneSession false) =
    (Returned tt,
     logged (oneSession false)
            (map (fun b => SendQOutput
                    (mkQOutput (Js.toString clock0) (Js.Buffer_toString b)
                       (Some (classify (Js.Buffer_toString b))) None))
                 [[Byte.x61]; [Byte.x0d; Byte.x0a]; [Byte.xc3; Byte.xa9]])) /\
  (forall buf cps,
      encodes buf cps -> Js.Buffer_toString buf = flat_map Js.utf16 cps).
Proof.
  split; [reflexivity|].
  apply (@output_in_order_payload_decoded (Js.toString clock0)
           (oneSession false) [Js.lit "a"; Js.lit "b"; Js.lit "c"]
           [[Byte.x61]; [Byte.x0d; Byte.x0a]; [Byte.xc3; Byte.xa9]]).
  reflexivity.
Defined.

(** C3 fails as stated on the pipe backend: with the window open, two
    different stdout chunks are delivered as the same payload, so the
    payload is not the bytes received; and the two bytes of one
    character arriving in two chunks are delivered as two U+FFFD, not
    as the character. *)
Lemma stdout_payload_not_the_bytes_received :
  windowAlive (oneSession false) = true /\
  [Byte.xff] <> [Byte.xfe] /\
  forEach (stdout_onData (Js.toString clock0)) [[Byte.xff]] (oneSession false)
  = forEach (stdout_onData (Js.toString clock0)) [[Byte.xfe]]
            (oneSession false) /\
  map data
      (collect qOutputOf
         (skipn (List.length (trace (oneSession false)))
            (trace (snd (forEach (stdout_onData (Js.toString clock0))
                                 [[Byte.xc3]; [Byte.xa9]]
                                 (oneSession false))))))
  = [[65533%N]; [65533%N]] /\
  Js.Buffer_toString [Byte.xc3; Byte.xa9] = [233%N].
Proof. vm_compute. repeat split; try reflexivity. discriminate. Qed.

(* ================================================================= *)
(** ** More on the session layer *)

Lemma in_delete (V : Type) (m : Js.Map V) k kv :
  In kv (Js.delete m k) -> In kv m.
Proof.
  induction m as [|[k0 v0] m IH]; simpl; auto.
  destruct (Js.eqb k0 k); simpl.
  - intros H. right. now apply IH.
  - intros [H|H]; [now left | right; now apply IH].
Qed.

Lemma in_set (V : Type) (m : Js.Map V) k v kv :
  In kv (Js.set m k v) -> kv = (k, v) \/ In kv m.
Proof.
  induction m as [|[k0 v0] m IH]; simpl.
  - intros [H|[]]; auto.
  - destruct (Js.eqb k0 k) eqn:E; simpl.
    + apply eqb_eq in E. subst k0.
      intros [H|H]; [now left | right; now right].
    + intros [H|H]; [right; now left|].
      destruct (IH H); [now left | right; now right].
Qed.

Lemma get_in (V : Type) (m : Js.Map V) k v :
  Js.get m k = Some v -> In (k, v) m.
Proof.
  induction m as [|[k0 v0] m IH]; simpl; [discriminate|].
  destruct (Js.eqb k0 k) eqn:E.
  - apply eqb_eq in E. intros [= ->]. left. now subst.
  - intros H. right. now apply IH.
Qed.

Lemma listenerOf_app_some ls ls' p c :
  listenerOf ls p = Some c -> listenerOf (ls ++ ls') p = Some c.
Proof.
  induction ls as [|[q c0] ls IH]; simpl; [discriminate|].
  destruct (Nat.eqb q p); auto.
Qed.

Lemma listenerOf_fresh ls p c n :
  Forall (fun pc => fst pc < n) ls -> n <= p ->
  listenerOf (ls ++ [(p, c)]) p = Some c.
Proof.
  induction 1 as [|[q c0] ls Hq _ IH]; simpl; intros Hp.
  - now rewrite Nat.eqb_refl.
  - simpl in Hq. destruct (Nat.eqb_spec q p); [lia | now apply IH].
Qed.

(** What one turn can do to the listeners and the registry entries. *)
Inductive turn_shape (h : Host) (w w' : World) : Prop :=
| ts_keep :
    listeners w' = listeners w -> spawned w' = spawned w ->
    (forall kv, In kv (sessions w') -> In kv (sessions w)) ->
    turn_shape h w w'
| ts_create now : w' = created h now w -> turn_shape h w w'.

Lemma listener_turn_shape h (l : M unit) w :
  (exists es, l w = (Returned tt, logged w es)) \/
  (exists k es, l w = (Returned tt,
                       logged (withSessions w (Js.delete (sessions w) k)) es)) ->
  turn_shape h w (snd (l w)).
Proof.
  intros [[es ->]|[k [es ->]]]; apply ts_keep; simpl; auto.
  intros kv. apply in_delete.
Qed.

Lemma step_turn_shape h a ev w : turn_shape h w (step h a ev w).
Proof.
  unfold step. destruct ev; simpl; unfold discard; simpl.
  - rewrite create_session_run.
    destruct (spawn_raises a (backendOf w)); simpl.
    + now apply ts_keep.
    + now apply ts_create with (now := now).
  - destruct (send_to_q_logs a sessionId input w) as [es ->].
    now apply ts_keep.
  - rewrite kill_session_run.
    destruct (Js.get (sessions w) sessionId) as [s|]; [|now apply ts_keep].
    destruct (kill_raises a (process s) None); apply ts_keep; simpl; auto.
    intros kv. apply in_delete.
  - rewrite close_app_run. apply ts_keep; simpl; auto. intros kv [].
  - now apply ts_keep.
  - unfold destroyWindow, bind, getWorld.
    destruct (mainWindow w); now apply ts_keep.
  - rewrite window_close_run. apply ts_keep; simpl; auto. intros kv [].
  - rewrite window_all_closed_run. apply ts_keep; simpl; auto. intros kv [].
  - rewrite dispatch_cases.
    destruct (listenerOf (listeners w) p) as [c|]; [|now apply ts_keep].
    destruct (SessionType_eqb (c_type c) pty); [|now apply ts_keep].
    apply listener_turn_shape. left. eexists. apply pty_onData_run.
  - rewrite dispatch_cases.
    destruct (listenerOf (listeners w) p) as [c|]; [|now apply ts_keep].
    destruct (SessionType_eqb (c_type c) pty); [|now apply ts_keep].
    apply listener_turn_shape. right. do 2 eexists. apply onExit_run.
  - rewrite dispatch_cases.
    destruct (listenerOf (listeners w) p) as [c|]; [|now apply ts_keep].
    destruct (SessionType_eqb (c_type c) spawn); [|now apply ts_keep].
    apply listener_turn_shape. left. eexists. apply stdout_onData_run.
  - rewrite dispatch_cases.
    destruct (listenerOf (listeners w) p) as [c|]; [|now apply ts_keep].
    destruct (SessionType_eqb (c_type c) spawn); [|now apply ts_keep].
    apply listener_turn_shape. left. eexists. apply stderr_onData_run.
  - rewrite dispatch_cases.
    destruct (listenerOf (listeners w) p) as [c|]; [|now apply ts_keep].
    destruct (SessionType_eqb (c_type c) spawn); [|now apply ts_keep].
    apply listener_turn_shape. right. do 2 eexists. apply onExit_run.
  - rewrite dispatch_cases.
    destruct (listenerOf (listeners w) p) as [c|]; [|now apply ts_keep].
    destruct (SessionType_eqb (c_type c) spawn); [|now apply ts_keep].
    apply listener_turn_shape. right. do 2 eexists. apply onError_run.
Qed.

Lemma turn_shape_wired h w w' : turn_shape h w w' -> wired w -> wired w'.
Proof.
  unfold wired. intros [Hl Hn Hs|now ->] [Hw Hf].
  - rewrite Hl, Hn. split; [|assumption].
    rewrite Forall_forall in *. intros kv Hin. apply Hw. now apply Hs.
  - simpl. split.
    + rewrite Forall_forall in *. intros kv Hin.
      apply in_set in Hin. destruct Hin as [->|Hin]; simpl.
      * now apply listenerOf_fresh with (n := spawned w);
          [apply Forall_forall|].
      * apply listenerOf_app_some. now apply Hw.
    + apply Forall_app. split.
      * rewrite Forall_forall in *. intros pc Hin.
        specialize (Hf _ Hin). lia.
      * constructor; [simpl; lia | constructor].
Qed.

Lemma reachable_wired w : reachable w -> wired w.
Proof.
  induction 1 as [nodePty|h a ev w Hr IH].
  - split; constructor.
  - exact (turn_shape_wired (step_turn_shape h a ev w) IH).
Qed.

Lemma created_backend h now w : backendOf (created h now w) = backendOf w.
Proof. reflexivity. Qed.

Lemma set_set (V : Type) (m : Js.Map V) k v1 v2 :
  Js.set (Js.set m k v1) k v2 = Js.set m k v2.
Proof.
  induction m as [|[k0 v0] m IH]; simpl.
  - now rewrite eqb_refl.
  - destruct (Js.eqb k0 k) eqn:E; simpl; rewrite E; [reflexivity|].
    now rewrite IH.
Qed.

(** X1.  In every reachable state, a session creation whose spawn
    succeeds returns an id under which the registry then holds a
    session in state [ready], of the selected backend, owning a process
    that no session registered before owns and whose listeners captured
    this very id. *)
Theorem create_session_registers_fresh_process h a now w :
  reachable w ->
  spawn_raises a (backendOf w) = None ->
  let w' := snd (create_session h a now w) in
  let s := mkSession (spawned w) ready (backendOf w) in
  fst (create_session h a now w) = Returned (Js.toString now) /\
  Js.get (sessions w') (Js.toString now) = Some s /\
  ~ In (process s) (map process (Js.values (sessions w))) /\
  listenerOf (listeners w') (process s) =
    Some (mkClosure (backendOf w) (Js.toString now)).
Proof.
  intros Hr Hs. cbv zeta. rewrite create_session_run, Hs. simpl.
  split; [reflexivity|]. split; [apply get_set_same|].
  destruct (reachable_registry_inv Hr) as [_ Hlt].
  destruct (reachable_wired Hr) as [_ Hf].
  split.
  - intros Hin. apply in_map_iff in Hin. destruct Hin as (s' & E & Hin).
    rewrite Forall_forall in Hlt. specialize (Hlt _ Hin). lia.
  - now apply listenerOf_fresh with (n := spawned w).
Qed.

(** An instance: a second session created after [oneSession]. *)
Lemma create_session_registers_fresh_process_witness :
  let w := oneSession true in
  let w' := snd (create_session bareHost quietAdapter (clock0 + 5) w) in
  let s := mkSession (spawned w) ready (backendOf w) in
  fst (create_session bareHost quietAdapter (clock0 + 5) w) =
    Returned (Js.toString (clock0 + 5)) /\
  Js.get (sessions w') (Js.toString (clock0 + 5)) = Some s /\
  ~ In (process s) (map process (Js.values (sessions w))) /\
  listenerOf (listeners w') (process s) =
    Some (mkClosure (backendOf w) (Js.toString (clock0 + 5))).
Proof.
  apply (@create_session_registers_fresh_process
           bareHost quietAdapter (clock0 + 5)%Z (oneSession true)).
  - exact (reach_step bareHost quietAdapter (CreateSession clock0)
             (reach_step bareHost quietAdapter CreateWindow
                (reach_initial true))).
  - reflexivity.
Defined.

(** X2.  In every reachable state, when the process of a registered
    session reports its exit, the listener that runs holds that
    session's own id: the session is removed from the registry and, if
    the window is there, the one ['session-closed'] message sent names
    this id and the reported code. *)
Theorem registered_exit_unregisters h a w sessionId s code signal :
  reachable w ->
  Js.get (sessions w) sessionId = Some s ->
  let w' := step h a (exitEvent (type s) (process s) code signal) w in
  Js.get (sessions w') sessionId = None /\
  trace w' =
    trace w ++
    (if windowAlive w
     then [SendSessionClosed (mkSessionClosed sessionId code None)]
     else []).
Proof.
  intros Hr Hs. cbv zeta.
  destruct (reachable_wired Hr) as [Hw _].
  rewrite Forall_forall in Hw. specialize (Hw _ (get_in _ _ Hs)).
  simpl in Hw. rewrite (@exitEvent_step h a _ _ _ code signal _ Hw).
  split; [simpl; apply get_delete_same | reflexivity].
Qed.

(** An instance: the session of [oneSession] on the pipe backend. *)
Lemma registered_exit_unregisters_witness :
  let w := oneSession false in
  let s := mkSession 0 ready spawn in
  let w' := step bareHost quietAdapter
                 (exitEvent (type s) (process s) (Some 127%Z) None) w in
  Js.get (sessions w') (Js.toString clock0) = None /\
  trace w' =
    trace w ++
    (if windowAlive w
     then [SendSessionClosed
             (mkSessionClosed (Js.toString clock0) (Some 127%Z) None)]
     else []).
Proof.
  apply (@registered_exit_unregisters bareHost quietAdapter
           (oneSession false) (Js.toString clock0)
           (mkSession 0 ready spawn) (Some 127%Z) None).
  - exact (reach_step bareHost quietAdapter (CreateSession clock0)
             (reach_step bareHost quietAdapter CreateWindow
                (reach_initial false))).
  - reflexivity.
Defined.

Lemma send_to_q_unknown a sessionId input w :
  Js.get (sessions w) sessionId = None ->
  send_to_q a sessionId input w = (Returned false, w).
Proof.
  intros H. unfold send_to_q. unfold bind at 1.
  now rewrite sessions_get_run, H.
Qed.

(** X3.  Once [kill-session] has returned true for a session, input
    sent to that id is refused: [send-to-q] returns false and neither
    writes to the killed process nor changes anything. *)
Theorem send_after_kill_is_refused a a' sessionId input w :
  live a w sessionId = true ->
  fst (kill_session a sessionId w) = Returned true /\
  send_to_q a' sessionId input (snd (kill_session a sessionId w)) =
    (Returned false, snd (kill_session a sessionId w)).
Proof.
  unfold live. intros H.
  destruct (Js.get (sessions w) sessionId) as [s|] eqn:Hs; [|discriminate].
  destruct (kill_raises a (process s) None) eqn:Hk; [discriminate|].
  rewrite (kill_session_known a sessionId w Hs Hk). simpl.
  split; [reflexivity|].
  apply send_to_q_unknown. simpl. apply get_delete_same.
Qed.

(** An instance: the session of [oneSession], killed and then written to. *)
Lemma send_after_kill_is_refused_witness :
  fst (kill_session quietAdapter (Js.toString clock0) (oneSession true)) =
    Returned true /\
  send_to_q quietAdapter (Js.toString clock0) (Js.lit "y")
            (snd (kill_session quietAdapter (Js.toString clock0)
                               (oneSession true))) =
    (Returned false,
     snd (kill_session quietAdapter (Js.toString clock0) (oneSession true))).
Proof.
  apply (send_after_kill_is_refused quietAdapter quietAdapter
           (Js.toString clock0) (Js.lit "y") (oneSession true)).
  reflexivity.
Defined.

Lemma quiet_listener (l : Js.str -> M unit) (msg : Js.str -> Effect) w k :
  windowAlive w = false ->
  (l k w = (Returned tt, logged w (if windowAlive w then [msg k] else [])) \/
   l k w = (Returned tt,
            logged (withSessions w (Js.delete (sessions w) k))
                   (if windowAlive w then [msg k] else []))) ->
  trace (snd (l k w)) = trace w /\ mainWindow (snd (l k w)) = mainWindow w.
Proof.
  intros Hw [->| ->]; rewrite Hw; simpl; now rewrite app_nil_r.
Qed.

Lemma quiet_step h a ev w :
  windowAlive w = false ->
  isProcessEvent ev = true ->
  trace (step h a ev w) = trace w /\
  mainWindow (step h a ev w) = mainWindow w.
Proof.
  intros Hw Hev. unfold step.
  destruct ev; try discriminate; simpl; rewrite dispatch_cases;
    (destruct (listenerOf (listeners w) p) as [c|]; [|now split]);
    (destruct (SessionType_eqb (c_type c) _); [|now split]).
  - apply (quiet_listener (fun k => pty_onData k data0)
                          (fun k => ptyMessage k data0) _ Hw).
    left. apply pty_onData_run.
  - apply (quiet_listener (fun k => onExit k code0)
             (fun k => SendSessionClosed (mkSessionClosed k code0 None))
             _ Hw).
    right. apply onExit_run.
  - apply (quiet_listener (fun k => stdout_onData k data0)
                          (fun k => stdoutMessage k data0) _ Hw).
    left. apply stdout_onData_run.
  - apply (quiet_listener (fun k => stderr_onData k data0)
                          (fun k => stderrMessage k data0) _ Hw).
    left. apply stderr_onData_run.
  - apply (quiet_listener (fun k => onExit k code0)
             (fun k => SendSessionClosed (mkSessionClosed k code0 None))
             _ Hw).
    right. apply onExit_run.
  - apply (quiet_listener (fun k => onError k error0)
             (fun k => SendSessionClosed
                         (mkSessionClosed k (Some (-1)%Z)
                                          (Some (message error0))))
             _ Hw).
    right. apply onError_run.
Qed.

Lemma quiet_run turns : forall w,
  windowAlive w = false ->
  processTurns turns = true ->
  trace (run turns w) = trace w /\ windowAlive (run turns w) = false.
Proof.
  induction turns as [|[[h a] ev] turns IH]; intros w Hw Ht; simpl.
  - now split.
  - simpl in Ht. apply andb_true_iff in Ht. destruct Ht as [Hev Ht].
    destruct (quiet_step h a ev w Hw Hev) as [Htr Hmw].
    assert (Hw' : windowAlive (step h a ev w) = false)
      by (unfold windowAlive in *; now rewrite Hmw).
    destruct (IH _ Hw' Ht) as [H1 H2]. split; [congruence | assumption].
Qed.

Lemma close_app_window a w : windowAlive (snd (close_app a w)) = false.
Proof.
  rewrite close_app_run. unfold windowAlive at 1. simpl.
  destruct (windowAlive w) eqn:E; [reflexivity | exact E].
Qed.

(** X4.  After [close-app], and after the window's [close] handler,
    nothing a spawned process emits (output, error output, exit, spawn
    error) makes the main process send anything: however many such
    events follow, the trace stays as the shutdown left it. *)
Theorem no_message_after_shutdown a turns w :
  processTurns turns = true ->
  trace (run turns (snd (close_app a w))) = trace (snd (close_app a w)) /\
  trace (run turns (snd (window_close a w))) = trace (snd (window_close a w)).
Proof.
  intros Ht. split.
  - now apply quiet_run; [apply close_app_window|].
  - apply quiet_run; [|exact Ht]. now rewrite window_close_run.
Qed.

(** An instance: output and exit of the process of [oneSession] after
    [close-app]. *)
Lemma no_message_after_shutdown_witness :
  let turns := [ (bareHost, quietAdapter, PtyData 0 (Js.lit "Proceed?"));
                 (bareHost, quietAdapter, PtyExit 0 (Some 0%Z) None) ] in
  trace (run turns (snd (close_app quietAdapter (oneSession true)))) =
    trace (snd (close_app quietAdapter (oneSession true))) /\
  trace (run turns (snd (window_close quietAdapter (oneSession true)))) =
    trace (snd (window_close quietAdapter (oneSession true))).
Proof.
  apply (@no_message_after_shutdown quietAdapter
           [ (bareHost, quietAdapter, PtyData 0 (Js.lit "Proceed?"));
             (bareHost, quietAdapter, PtyExit 0 (Some 0%Z) None) ]
           (oneSession true)).
  reflexivity.
Defined.

(** X5.  If the kill request raises, [kill-session] raises the same
    error after the request and leaves the session registered; a later
    [close-app] still requests the kill of its process and empties the
    registry. *)
Theorem kill_session_failure_keeps_session a a' sessionId w s e :
  Js.get (sessions w) sessionId = Some s ->
  kill_raises a (process s) None = Some e ->
  let w1 := snd (kill_session a sessionId w) in
  kill_session a sessionId w = (Threw e, logged w [Kill (process s) None]) /\
  Js.get (sessions w1) sessionId = Some s /\
  In (Kill (process s) (Some SIGTERM))
     (skipn (List.length (trace w1)) (trace (snd (close_app a' w1)))) /\
  sessions (snd (close_app a' w1)) = [].
Proof.
  intros Hs Hk. cbv zeta. rewrite kill_session_run, Hs, Hk. simpl.
  split; [reflexivity|]. split; [assumption|].
  rewrite close_app_run. simpl. split; [|reflexivity].
  rewrite <- app_assoc, skipn_app, skipn_all, Nat.sub_diag. simpl.
  apply in_or_app. left. unfold killsFor. apply in_map_iff.
  exists s. split; [reflexivity|].
  apply in_map_iff. exists (sessionId, s). split; [reflexivity|].
  now apply get_in.
Qed.

(** An instance: the session of [oneSession] with a process that
    rejects the kill request. *)
Lemma kill_session_failure_keeps_session_witness :
  let w := oneSession true in
  let s := mkSession 0 ready pty in
  let e := mkError (Js.lit "kill EPERM") in
  let w1 := snd (kill_session stubbornAdapter (Js.toString clock0) w) in
  kill_session stubbornAdapter (Js.toString clock0) w =
    (Threw e, logged w [Kill (process s) None]) /\
  Js.get (sessions w1) (Js.toString clock0) = Some s /\
  In (Kill (process s) (Some SIGTERM))
     (skipn (List.length (trace w1))
            (trace (snd (close_app quietAdapter w1)))) /\
  sessions (snd (close_app quietAdapter w1)) = [].
Proof.
  apply (@kill_session_failure_keeps_session stubbornAdapter quietAdapter
           (Js.toString clock0) (oneSession true) (mkSession 0 ready pty)
           (mkError (Js.lit "kill EPERM"))); reflexivity.
Defined.

Lemma trimStart_head s :
  match Js.trimStart s with
  | [] => True
  | c :: _ => Js.isWhiteSpace c = false
  end.
Proof.
  induction s as [|c s IH]; simpl; [exact I|].
  destruct (Js.isWhiteSpace c) eqn:E; [exact IH | exact E].
Qed.

Lemma trimStart_suffix s : exists pre, s = pre ++ Js.trimStart s.
Proof.
  induction s as [|c s [pre IH]]; simpl.
  - now exists [].
  - destruct (Js.isWhiteSpace c).
    + exists (c :: pre). simpl. now f_equal.
    + now exists [].
Qed.

Lemma trimStart_blank s :
  forallb Js.isWhiteSpace s = true -> Js.trimStart s = [].
Proof.
  induction s as [|c s IH]; simpl; [reflexivity|].
  destruct (Js.isWhiteSpace c); simpl; [exact IH | discriminate].
Qed.

Lemma trim_edgeClean s : edgeClean (Js.trim s) = true.
Proof.
  unfold Js.trim, Js.trimEnd, edgeClean.
  set (t := Js.trimStart s). set (u := Js.trimStart (rev t)).
  apply andb_true_iff. split.
  - destruct (trimStart_suffix (rev t)) as [pre Hpre]. fold u in Hpre.
    assert (Ht : t = rev u ++ rev pre)
      by (rewrite <- rev_app_distr, <- Hpre; now rewrite rev_involutive).
    pose proof (trimStart_head s) as Hh. fold t in Hh.
    destruct (rev u) as [|c r]; [reflexivity|].
    rewrite Ht in Hh. simpl in Hh. now rewrite Hh.
  - rewrite rev_involutive. pose proof (trimStart_head (rev t)) as Hh.
    fold u in Hh. destruct u as [|c r]; [reflexivity | now rewrite Hh].
Qed.

Lemma trim_blank s : forallb Js.isWhiteSpace s = true -> Js.trim s = [].
Proof.
  intros H. unfold Js.trim, Js.trimEnd. now rewrite (trimStart_blank _ H).
Qed.

(** X6.  On the pseudo-terminal backend the line written for an input
    is a body with no white space at either end, followed by one
    carriage return; for an input made of white space only (or empty)
    the body is empty, so a bare carriage return is written. *)
Theorem pty_write_is_trimmed_line a sessionId input w s :
  Js.get (sessions w) sessionId = Some s ->
  type s = pty ->
  exists body,
    trace (snd (send_to_q a sessionId input w)) =
      trace w ++ [PtyWrite (process s) (Js.cat body Js.CR)] /\
    edgeClean body = true /\
    (forallb Js.isWhiteSpace input = true -> body = []).
Proof.
  intros Hs Ht. exists (Js.trim input).
  split; [|split; [apply trim_edgeClean | apply trim_blank]].
  unfold send_to_q. unfold bind at 1. rewrite sessions_get_run, Hs, Ht.
  now rewrite adapterCall_try.
Qed.

(** An instance: blanks around [y] sent to the session of [oneSession]. *)
Lemma pty_write_is_trimmed_line_witness :
  exists body,
    trace (snd (send_to_q quietAdapter (Js.toString clock0)
                          (Js.lit "  y ") (oneSession true))) =
      trace (oneSession true) ++ [PtyWrite 0 (Js.cat body Js.CR)] /\
    edgeClean body = true /\
    (forallb Js.isWhiteSpace (Js.lit "  y ") = true -> body = []).
Proof.
  apply (@pty_write_is_trimmed_line quietAdapter (Js.toString clock0)
           (Js.lit "  y ") (oneSession true) (mkSession 0 ready pty));
    reflexivity.
Defined.

(** X7.  In every reachable state, two session creations that read the
    same clock value leave the first process orphaned: the registry
    entry of the shared id refers to the second process only, no entry
    refers to the first process (so neither [kill-session] nor a
    shutdown will signal it), and when the first process exits its
    listener removes the entry of the second session. *)
Theorem same_reading_orphans_first_process
        h1 a1 h2 a2 h a now w code signal :
  reachable w ->
  spawn_raises a1 (backendOf w) = None ->
  spawn_raises a2 (backendOf w) = None ->
  let w1 := snd (create_session h1 a1 now w) in
  let w2 := snd (create_session h2 a2 now w1) in
  let p1 := spawned w in
  let p2 := S (spawned w) in
  Js.get (sessions w2) (Js.toString now) =
    Some (mkSession p2 ready (backendOf w)) /\
  ~ In p1 (map process (Js.values (sessions w2))) /\
  Js.get (sessions (step h a (exitEvent (backendOf w) p1 code signal) w2))
         (Js.toString now) = None.
Proof.
  intros Hr Hs1 Hs2. cbv zeta.
  rewrite (create_session_run h1), Hs1. cbn [snd].
  rewrite (create_session_run h2), created_backend, Hs2. cbn [snd].
  destruct (reachable_registry_inv Hr) as [_ Hlt].
  destruct (reachable_wired Hr) as [_ Hf].
  split; [|split].
  - simpl. apply get_set_same.
  - simpl. rewrite set_set. intros Hin.
    apply in_map_iff in Hin. destruct Hin as (s & E & Hin).
    apply in_values_set in Hin. destruct Hin as [->|Hin].
    + simpl in E. lia.
    + rewrite Forall_forall in Hlt. specialize (Hlt _ Hin). lia.
  - rewrite (@exitEvent_step h a (spawned w) (backendOf w)
               (Js.toString now) code signal).
    + simpl. apply get_delete_same.
    + simpl. apply listenerOf_app_some.
      now apply listenerOf_fresh with (n := spawned w).
Qed.

(** An instance: two creations at [clock0] right after start-up. *)
Lemma same_reading_orphans_first_process_witness :
  let w := initial true in
  let w1 := snd (create_session bareHost quietAdapter clock0 w) in
  let w2 := snd (create_session bareHost quietAdapter clock0 w1) in
  Js.get (sessions w2) (Js.toString clock0) =
    Some (mkSession 1 ready (backendOf w)) /\
  ~ In 0 (map process (Js.values (sessions w2))) /\
  Js.get (sessions (step bareHost quietAdapter
                         (exitEvent (backendOf w) 0 (Some 0%Z) None) w2))
         (Js.toString clock0) = None.
Proof.
  apply (@same_reading_orphans_first_process
           bareHost quietAdapter bareHost quietAdapter bareHost quietAdapter
           clock0 (initial true) (Some 0%Z) None).
  - exact (reach_initial true).
  - reflexivity.
  - reflexivity.
Defined.



(* ================================================================= *)
(** ** Docker status check *)

Lemma tryDockerPaths_run h : forall paths,
  tryDockerPaths h paths =
  Returned (if existsb (fun p => succeeds h (Js.cat p (Js.lit " ps"))) paths
            then Some (mkDockerStatus true None) else None).
Proof.
  induction paths as [|p paths IH]; simpl; [reflexivity|].
  unfold succeeds at 1.
  destruct (execSync h (Js.cat p (Js.lit " ps"))); simpl; auto.
Qed.

(** X9.  [checkDockerStatus] never raises.  It reports Docker as
    running exactly when [<path> ps] succeeds for one of the four
    candidate paths, and otherwise answers with the error ['Docker not
    found']; the answer ['Docker not running'] of its outer [catch] is
    never produced. *)
Theorem checkDockerStatus_found_or_not_found h :
  exists st,
    checkDockerStatus h = Returned st /\
    running st =
      existsb (fun p => succeeds h (Js.cat p (Js.lit " ps"))) dockerPaths /\
    docker_error st =
      (if running st then None else Some (Js.lit "Docker not found")) /\
    docker_error st <> Some (Js.lit "Docker not running").
Proof.
  unfold checkDockerStatus. rewrite tryDockerPaths_run.
  destruct (existsb _ dockerPaths) eqn:E; simpl; eexists;
    (split; [reflexivity|]); simpl; repeat split; try discriminate.
Qed.

(* ================================================================= *)
(** ** The file handlers *)

Lemma sanitized_unit c :
  let c' := if isFilenameChar c then c else 95%N in
  (isFilenameChar c' = true \/ c' = 95%N) /\ c' <> 47%N /\ c' <> 92%N.
Proof.
  cbv zeta. destruct (isFilenameChar c) eqn:E.
  - split; [now left|]. split; intros ->; discriminate.
  - split; [now right|]. split; discriminate.
Qed.

(** X10.  Sanitizing a file name keeps its length and leaves only
    letters, digits, dots, hyphens and underscores, hence no path
    separator; it changes nothing in a name made of such characters,
    and sanitizing twice is sanitizing once. *)
Theorem sanitizeFilename_safe filename :
  List.length (sanitizeFilename filename) = List.length filename /\
  Forall (fun c => (isFilenameChar c = true \/ c = 95%N) /\
                   c <> 47%N /\ c <> 92%N)
         (sanitizeFilename filename) /\
  sanitizeFilename (sanitizeFilename filename) = sanitizeFilename filename /\
  (sanitizeFilename filename = filename <->
   forallb (fun c => isFilenameChar c || (c =? 95)%N) filename = true).
Proof.
  unfold sanitizeFilename. split; [apply length_map|].
  split; [|split].
  - apply Forall_forall. intros c Hin. apply in_map_iff in Hin.
    destruct Hin as (c0 & <- & _). apply sanitized_unit.
  - rewrite map_map. apply map_ext. intros c.
    destruct (isFilenameChar c) eqn:E; [now rewrite E | reflexivity].
  - induction filename as [|c s IH]; simpl; [tauto|].
    rewrite andb_true_iff, <- IH. split.
    + intros [= Hc Hs]. split; [|exact Hs].
      destruct (isFilenameChar c); [reflexivity|].
      subst c. reflexivity.
    + intros [Hc Hs]. f_equal; [|exact Hs].
      destruct (isFilenameChar c); [reflexivity|].
      simpl in Hc. apply N.eqb_eq in Hc. now subst.
Qed.

Lemma save_mcp_config_run rt d now content :
  save_mcp_config rt d now content =
  match disk_existsSync d (configPath rt) with
  | Threw e => (Done (mkMcpSaved false None (Some (message e))), [])
  | Returned present =>
      let copied := if present
                    then [CopyFile (configPath rt) (backupPath rt now)]
                    else [] in
      match (if present
             then copyFileSync d (configPath rt) (backupPath rt now)
             else None) with
      | Some e => (Done (mkMcpSaved false None (Some (message e))), copied)
      | None =>
          match JSON_parse rt content with
          | Some e => (Done (mkMcpSaved false None (Some (message e))), copied)
          | None =>
              (Done (match writeFileSync d (configPath rt) content with
                     | Some e => mkMcpSaved false None (Some (message e))
                     | None => mkMcpSaved true (Some (backupPath rt now)) None
                     end),
               copied ++ [WriteFile (configPath rt) content])
          end
      end
  end.
Proof.
  unfold save_mcp_config.
  destruct (disk_existsSync d (configPath rt)) as [[|]|e]; simpl;
    try reflexivity;
    try (destruct (copyFileSync d (configPath rt) (backupPath rt now));
         simpl; [reflexivity|]);
    (destruct (JSON_parse rt content); simpl; [reflexivity|]);
    destruct (writeFileSync d (configPath rt) content); reflexivity.
Qed.

(** X11.  [save-mcp-config] never raises.  It writes nothing but the
    configuration file, with the submitted content, and only after
    [JSON.parse] has accepted that content; and when the configuration
    file already exists, the write is preceded by a successful backup
    copy of it, these two being all the handler does. *)
Theorem save_mcp_config_validates_and_backs_up rt d now content :
  (exists res, fst (save_mcp_config rt d now content) = Done res) /\
  (forall p c,
      In (WriteFile p c) (snd (save_mcp_config rt d now content)) ->
      p = configPath rt /\ c = content /\ JSON_parse rt content = None /\
      (disk_existsSync d (configPath rt) = Returned true ->
       copyFileSync d (configPath rt) (backupPath rt now) = None /\
       snd (save_mcp_config rt d now content) =
         [CopyFile (configPath rt) (backupPath rt now);
          WriteFile (configPath rt) content])).
Proof.
  rewrite save_mcp_config_run.
  destruct (disk_existsSync d (configPath rt)) as [[|]|e]; cbv zeta;
    try (destruct (copyFileSync d (configPath rt) (backupPath rt now)));
    destruct (JSON_parse rt content); simpl;
    (split; [eexists; reflexivity|]); intros p c Hin;
    repeat (destruct Hin as [Hin|Hin]; try discriminate Hin);
    try contradiction;
    injection Hin as <- <-; repeat split; try discriminate; auto.
Qed.

(** X12.  Backups taken at different clock readings get different
    paths, so one does not overwrite the other. *)
Theorem backupPath_distinct rt now now' :
  now <> now' -> backupPath rt now <> backupPath rt now'.
Proof.
  unfold backupPath, Js.cat. intros Hneq H.
  apply app_inv_head in H. now apply toString_inj in H.
Qed.

(** An instance: two readings one millisecond apart. *)
Lemma backupPath_distinct_witness :
  backupPath plainRuntime clock0 <> backupPath plainRuntime (clock0 + 1).
Proof.
  apply (@backupPath_distinct plainRuntime clock0 (clock0 + 1)%Z).
  unfold clock0. lia.
Defined.

Lemma uniquePath_quiet fuel rt d location name : forall finalPath counter,
  snd (uniquePath fuel rt d location name finalPath counter) = [] /\
  forall p, fst (uniquePath fuel rt d location name finalPath counter) = Done p ->
            disk_existsSync d p = Returned false.
Proof.
  induction fuel as [|fuel IH]; intros finalPath counter; simpl.
  - split; [reflexivity | discriminate].
  - destruct (disk_existsSync d finalPath) as [[|]|e] eqn:E; simpl.
    + specialize (IH (numberedPath rt location name counter) (counter + 1)%Z).
      destruct (uniquePath fuel rt d location name _ _) as [o es].
      simpl in *. destruct IH as [-> IH]. split; [reflexivity | exact IH].
    + split; [reflexivity|]. now intros p [= <-].
    + split; [reflexivity | discriminate].
Qed.

Lemma saveToLocation_writes fuel rt d location name html :
  (forall p c, In (WriteFile p c) (snd (saveToLocation fuel rt d location name html)) ->
               c = html /\ disk_existsSync d p = Returned false) /\
  (forall p, fst (saveToLocation fuel rt d location name html) = Done p ->
             In (WriteFile p html) (snd (saveToLocation fuel rt d location name html))).
Proof.
  unfold saveToLocation.
  destruct (uniquePath_quiet fuel rt d location name (join rt [location; name]) 1) as [Hq Hf].
  destruct (uniquePath fuel rt d location name (join rt [location; name]) 1) as [o es].
  simpl in Hq, Hf. subst es.
  destruct (disk_existsSync d location) as [[|]|e]; simpl;
    try (split; [intros p c [] | discriminate]);
    try destruct (mkdirSync d location); simpl;
    try (split; [intros p c [H|[]]; discriminate | discriminate]);
    destruct o as [fp|e'|]; simpl;
    try (split; [intros p c H; repeat (destruct H as [H|H]; try discriminate); contradiction | discriminate]);
    destruct (writeFileSync d fp html); simpl;
    try destruct (statSync_size d fp) as [sz|e'']; simpl;
    try destruct (sz =? 0)%N; simpl.
  all: split; [intros p c H; repeat (destruct H as [H|H]; try discriminate); try contradiction;
               injection H as <- <-; split; [reflexivity | now apply Hf]
              | try discriminate; intros p [= <-]; simpl; auto].
Qed.

Lemma tryLocations_writes fuel rt d name html : forall locations saveError,
  (forall p c, In (WriteFile p c)
                  (snd (tryLocations fuel rt d locations name html saveError)) ->
               c = html /\ disk_existsSync d p = Returned false) /\
  (forall p e, fst (tryLocations fuel rt d locations name html saveError)
               = Done (Some p, e) ->
               In (WriteFile p html)
                  (snd (tryLocations fuel rt d locations name html saveError))).
Proof.
  induction locations as [|location rest IH]; intros saveError; simpl.
  - split; [intros p c [] | discriminate].
  - destruct (saveToLocation_writes fuel rt d location name html) as [Hw Hd].
    destruct (saveToLocation fuel rt d location name html) as [[fp|e|] es];
      simpl in *.
    + split.
      * intros p c H. rewrite !app_nil_r in H. now apply Hw.
      * intros p e [= <- <-]. rewrite !app_nil_r. now apply Hd.
    + specialize (IH (Some e)).
      destruct (tryLocations fuel rt d rest name html (Some e)) as [o es'].
      simpl in *. destruct IH as [IHw IHd]. rewrite app_nil_r. split.
      * intros p c H. apply in_app_or in H. destruct H; [now apply Hw | now apply IHw].
      * intros p e0 H. apply in_or_app. right. now apply (IHd p e0).
    + split; [exact Hw | discriminate].
Qed.

Lemma saveAttempt_writes fuel rt d filename html :
  (forall p c, In (WriteFile p c) (snd (saveAttempt fuel rt d filename html)) ->
               c = html /\ disk_existsSync d p = Returned false) /\
  (forall res, fst (saveAttempt fuel rt d filename html) = Done res ->
               report_success res = true /\
               exists p, report_filePath res = Some p /\ p <> [] /\
                         In (WriteFile p html)
                            (snd (saveAttempt fuel rt d filename html))).
Proof.
  unfold saveAttempt.
  destruct (tryLocations_writes fuel rt d (sanitizeFilename filename) html
              (saveLocations rt) None) as [Hw Hd].
  set (T := tryLocations fuel rt d (saveLocations rt)
              (sanitizeFilename filename) html None) in *.
  clearbody T.
  destruct (Js.truthy filename); simpl; [|split; [intros p c [] | discriminate]].
  destruct (Js.truthy html); simpl; [|split; [intros p c [] | discriminate]].
  destruct T as [[[sp e]|e|] es];
    simpl in *; try (split; [exact Hw | discriminate]).
  destruct sp as [[|c0 sp]|]; simpl;
    try (split; [intros p c H; rewrite app_nil_r in H; now apply Hw | discriminate]).
  destruct (statSync_size d (c0 :: sp)) as [sz|e']; simpl; rewrite app_nil_r;
    (split; [exact Hw|]); [|discriminate].
  intros res [= <-]. simpl. split; [reflexivity|].
  exists (c0 :: sp). repeat split; [discriminate|]. now apply (Hd _ e).
Qed.

Lemma retryFrom_writes fuel rt disk filename html :
  forall remaining attempt lastError,
  (forall p c, In (WriteFile p c)
                  (snd (retryFrom fuel rt disk filename html remaining attempt
                                  lastError)) ->
               c = html /\
               exists n, attempt <= n < attempt + remaining /\
                         disk_existsSync (disk n) p = Returned false) /\
  (forall res, fst (retryFrom fuel rt disk filename html remaining attempt
                              lastError) = Done res ->
               report_success res = true ->
               exists p, report_filePath res = Some p /\ p <> [] /\
                         In (WriteFile p html)
                            (snd (retryFrom fuel rt disk filename html
                                            remaining attempt lastError))).
Proof.
  induction remaining as [|remaining IH]; intros attempt lastError; simpl.
  - split; [intros p c [] | intros res [= <-]; discriminate].
  - destruct (saveAttempt_writes fuel rt (disk attempt) filename html)
      as [Hw Hd].
    destruct (saveAttempt fuel rt (disk attempt) filename html)
      as [[res0|e|] es]; simpl in *.
    + rewrite !app_nil_r. split.
      * intros p c H. destruct (Hw p c H) as [-> He]. split; [reflexivity|].
        exists attempt. split; [lia | exact He].
      * intros res [= <-] _. destruct (Hd res0 eq_refl) as [_ Hp]. exact Hp.
    + specialize (IH (S attempt) (Some e)).
      destruct (retryFrom fuel rt disk filename html remaining (S attempt)
                          (Some e)) as [o es'].
      simpl in IH. destruct IH as [IHw IHd].
      destruct (attempt <? 2); simpl; rewrite ?app_nil_r.
      * split.
        -- intros p c H. apply in_app_or in H. destruct H as [H|[H|H]];
             [| discriminate |].
           ++ destruct (Hw p c H) as [-> He]. split; [reflexivity|].
              exists attempt. split; [lia | exact He].
           ++ destruct (IHw p c H) as [-> (n & Hn & He)].
              split; [reflexivity|]. exists n. split; [lia | exact He].
        -- intros res Hres Hs. destruct (IHd res Hres Hs) as (p & H1 & H2 & H3).
           exists p. repeat split; auto. apply in_or_app. right. now right.
      * split.
        -- intros p c H. apply in_app_or in H. destruct H as [H|H].
           ++ destruct (Hw p c H) as [-> He]. split; [reflexivity|].
              exists attempt. split; [lia | exact He].
           ++ destruct (IHw p c H) as [-> (n & Hn & He)].
              split; [reflexivity|]. exists n. split; [lia | exact He].
        -- intros res Hres Hs. destruct (IHd res Hres Hs) as (p & H1 & H2 & H3).
           exists p. repeat split; auto. apply in_or_app. now right.
    + split; [|discriminate].
      intros p c H. destruct (Hw p c H) as [-> He]. split; [reflexivity|].
      exists attempt. split; [lia | exact He].
Qed.

Lemma uniquePath_from rt d location name k : forall n fuel j,
  k = j + n ->
  n < fuel ->
  (forall i, j <= i < k ->
             disk_existsSync d (candidate rt location name i) = Returned true) ->
  disk_existsSync d (candidate rt location name k) = Returned false ->
  uniquePath fuel rt d location name (candidate rt location name j)
             (Z.of_nat (S j)) =
  (Done (candidate rt location name k), []).
Proof.
  induction n as [|n IH]; intros fuel j Hk Hf Hex Hfree;
    (destruct fuel as [|fuel]; [lia|]); cbn [uniquePath].
  - replace j with k by lia. rewrite Hfree. reflexivity.
  - rewrite (Hex j) by lia. cbn [ioLift ioBind].
    replace (Z.of_nat (S j) + 1)%Z with (Z.of_nat (S (S j))) by lia.
    change (numberedPath rt location name (Z.of_nat (S j)))
      with (candidate rt location name (S j)).
    rewrite (IH fuel (S j)); [reflexivity | lia | lia | | exact Hfree].
    intros i Hi. apply Hex. lia.
Qed.

(** X13.  The numbering loop of [save-report] settles on the first
    candidate name for which no file exists: the sanitized name itself,
    else [name_1.ext], [name_2.ext], ...; it performs no effect, and
    [k + 1] tests are enough to reach candidate [k]. *)
Theorem uniquePath_first_free fuel rt d location name k :
  (forall i, i < k ->
             disk_existsSync d (candidate rt location name i) = Returned true) ->
  disk_existsSync d (candidate rt location name k) = Returned false ->
  k < fuel ->
  uniquePath fuel rt d location name (join rt [location; name]) 1 =
  (Done (candidate rt location name k), []).
Proof.
  intros Hex Hfree Hf.
  apply (@uniquePath_from rt d location name k k fuel 0); auto.
  intros i Hi. apply Hex. lia.
Qed.

(** An instance: [report.html] is taken, [report_1.html] is free. *)
Lemma uniquePath_first_free_witness :
  uniquePath 2 plainRuntime takenDisk (Js.lit "/home/user/Downloads")
             (Js.lit "report.html")
             (join plainRuntime
                   [Js.lit "/home/user/Downloads"; Js.lit "report.html"]) 1 =
  (Done (Js.lit "/home/user/Downloads/report_1.html"), []).
Proof.
  apply (@uniquePath_first_free 2 plainRuntime takenDisk
           (Js.lit "/home/user/Downloads") (Js.lit "report.html") 1).
  - intros i Hi. assert (i = 0) as -> by lia. reflexivity.
  - reflexivity.
  - lia.
Defined.

(** X14.  With an empty file name or empty content, [save-report]
    touches no file: it goes through its three attempts, waiting one
    and then two seconds, and answers with a failure whose message
    names the invalid argument. *)
Theorem save_report_rejects_empty_input fuel rt disk filename html :
  filename = [] \/ html = [] ->
  save_report fuel rt disk filename html =
  (Done (mkReportResult false None None
           (Some (Js.cat (Js.lit "Failed to save report after 3 attempts: ")
                         (if Js.truthy filename
                          then Js.lit "Invalid HTML content provided"
                          else Js.lit "Invalid filename provided")))),
   [Sleep 1000; Sleep 2000]).
Proof.
  intros [-> | ->]; [reflexivity|].
  destruct filename; reflexivity.
Qed.

(** An instance: an empty file name. *)
Lemma save_report_rejects_empty_input_witness :
  save_report 5 plainRuntime (fun _ => emptyDisk) [] (Js.lit "<html>") =
  (Done (mkReportResult false None None
           (Some (Js.cat (Js.lit "Failed to save report after 3 attempts: ")
                         (if Js.truthy ([] : Js.str)
                          then Js.lit "Invalid HTML content provided"
                          else Js.lit "Invalid filename provided")))),
   [Sleep 1000; Sleep 2000]).
Proof.
  apply (@save_report_rejects_empty_input 5 plainRuntime
           (fun _ => emptyDisk) [] (Js.lit "<html>")).
  now left.
Defined.

(** X15.  If the Downloads directory exists, the sanitized name is free
    in it, the write succeeds and the written file is not empty, then
    [save-report] succeeds at its first attempt: it writes the content
    once, under the sanitized name in Downloads, does nothing else, and
    reports that path and the file's size. *)
Theorem save_report_first_location fuel rt disk filename html size :
  let location := join rt [os_homedir rt; Js.lit "Downloads"] in
  let path := join rt [location; sanitizeFilename filename] in
  filename <> [] -> html <> [] -> path <> [] ->
  disk_existsSync (disk 0) location = Returned true ->
  disk_existsSync (disk 0) path = Returned false ->
  writeFileSync (disk 0) path html = None ->
  statSync_size (disk 0) path = Returned size ->
  size <> 0%N ->
  save_report (S fuel) rt disk filename html =
  (Done (mkReportResult true (Some path) (Some size) None),
   [WriteFile path html]).
Proof.
  intros location path Hf Hh Hp Hloc Hfree Hw Hs Hsz.
  destruct filename as [|c f]; [contradiction|].
  destruct html as [|c' h']; [contradiction|].
  unfold save_report, maxRetries. cbn [retryFrom saveAttempt Js.truthy negb].
  unfold saveLocations. cbn [tryLocations]. unfold saveToLocation.
  fold location. rewrite Hloc. cbn [ioLift ioBind negb ioRet app].
  cbn [uniquePath]. fold path. rewrite Hfree. cbn [ioLift ioBind ioRet app].
  rewrite Hw. cbn [ioCall ioBind app]. rewrite Hs.
  cbn [ioLift ioBind app]. destruct (N.eqb_spec size 0); [contradiction|].
  cbn [ioRet ioBind ioTry app fst snd].
  destruct path as [|c0 p0] eqn:Ep; [contradiction|].
  rewrite Hs. reflexivity.
Qed.

(** An instance: a report with a blank in its name on an empty disk. *)
Lemma save_report_first_location_witness :
  save_report 1 plainRuntime (fun _ => emptyDisk)
              (Js.lit "my report.html") (Js.lit "<html>") =
  (Done (mkReportResult true
           (Some (Js.lit "/home/user/Downloads/my_report.html"))
           (Some 42%N) None),
   [WriteFile (Js.lit "/home/user/Downloads/my_report.html")
              (Js.lit "<html>")]).
Proof.
  apply (@save_report_first_location 0 plainRuntime (fun _ => emptyDisk)
           (Js.lit "my report.html") (Js.lit "<html>") 42%N);
    try reflexivity; discriminate.
Defined.

(** X16.  Whatever the file system answers and however the run ends,
    every write [save-report] attempts carries the submitted content
    and goes to a path that [fs.existsSync] reported absent during the
    same attempt: an existing file is never overwritten. *)
Theorem save_report_never_overwrites fuel rt disk filename html p c :
  In (WriteFile p c) (snd (save_report fuel rt disk filename html)) ->
  c = html /\
  exists n, n < 3 /\ disk_existsSync (disk n) p = Returned false.
Proof.
  intros H.
  destruct (retryFrom_writes fuel rt disk filename html 3 0 None) as [Hw _].
  destruct (Hw p c H) as [-> (n & Hn & He)].
  split; [reflexivity|]. exists n. split; [lia | exact He].
Qed.

(** An instance: the write of the run on [takenDisk]. *)
Lemma save_report_never_overwrites_witness :
  Js.lit "<html>" = Js.lit "<html>" /\
  exists n, n < 3 /\
            disk_existsSync takenDisk
              (Js.lit "/home/user/Downloads/report_1.html") = Returned false.
Proof.
  apply (@save_report_never_overwrites 3 plainRuntime (fun _ => takenDisk)
           (Js.lit "report.html") (Js.lit "<html>")
           (Js.lit "/home/user/Downloads/report_1.html") (Js.lit "<html>")).
  vm_compute. left. reflexivity.
Defined.

(** X17.  Whenever [save-report] answers with success, the path it
    reports is non-empty and is one it wrote the submitted content to
    during the run. *)
Theorem save_report_success_was_written fuel rt disk filename html res :
  fst (save_report fuel rt disk filename html) = Done res ->
  report_success res = true ->
  exists p, report_filePath res = Some p /\ p <> [] /\
            In (WriteFile p html)
               (snd (save_report fuel rt disk filename html)).
Proof.
  intros H Hs.
  destruct (retryFrom_writes fuel rt disk filename html 3 0 None) as [_ Hd].
  exact (Hd res H Hs).
Qed.

(** An instance: the run on [takenDisk]. *)
Lemma save_report_success_was_written_witness :
  exists p,
    Some (Js.lit "/home/user/Downloads/report_1.html") = Some p /\ p <> [] /\
    In (WriteFile p (Js.lit "<html>"))
       (snd (save_report 3 plainRuntime (fun _ => takenDisk)
                         (Js.lit "report.html") (Js.lit "<html>"))).
Proof.
  apply (@save_report_success_was_written 3 plainRuntime (fun _ => takenDisk)
           (Js.lit "report.html") (Js.lit "<html>")
           (mkReportResult true
              (Some (Js.lit "/home/user/Downloads/report_1.html"))
              (Some 42%N) None)); reflexivity.
Defined.

(* ================================================================= *)
(** ** [read-file] *)

Lemma mapR_first_failure {A B} (f : A -> Result B) pre x post e :
  (forall y, In y pre -> exists b, f y = Returned b) ->
  f x = Threw e ->
  mapR f (pre ++ x :: post) = Threw e.
Proof.
  intros Hpre Hx. induction pre as [|y pre IH]; simpl.
  - now rewrite Hx.
  - destruct (Hpre y) as [b ->]; [now left|]. simpl.
    rewrite IH by (intros z Hz; apply Hpre; now right). reflexivity.
Qed.

(** X18.  [read-file] on a directory is all or nothing: if [stat]
    fails for one of the names [readdir] returned, while it works for
    the names before it, the handler answers with that failure's
    message and lists nothing, whatever the other entries are. *)
Theorem read_file_listing_fails_on_one_entry
        rt t filePath stats pre name post e :
  statSync t filePath = Returned stats ->
  st_isDirectory stats = true ->
  readdirSync t filePath = Returned (pre ++ name :: post) ->
  (forall n, In n pre -> exists st, statSync t (join rt [filePath; n]) = Returned st) ->
  statSync t (join rt [filePath; name]) = Threw e ->
  read_file rt t filePath = Returned (ReadFailed (message e)).
Proof.
  intros Hs Hd Hr Hpre He. unfold read_file. rewrite Hs. simpl.
  rewrite Hd, Hr. simpl.
  rewrite (@mapR_first_failure _ _ (describeEntry rt t filePath)
             pre name post e).
  - reflexivity.
  - intros n Hn. unfold describeEntry. destruct (Hpre n Hn) as [st ->].
    simpl. eexists. reflexivity.
  - unfold describeEntry. now rewrite He.
Qed.

(** An instance: a directory holding a file and a dangling link. *)
Lemma read_file_listing_fails_on_one_entry_witness :
  read_file plainRuntime sampleTree (Js.lit "/data") =
  Returned (ReadFailed (Js.lit "ENOENT: no such file")).
Proof.
  apply (@read_file_listing_fails_on_one_entry plainRuntime sampleTree
           (Js.lit "/data") (mkStats true 64 0)
           [Js.lit "a.txt"] (Js.lit "dangling") []
           (mkError (Js.lit "ENOENT: no such file"))); try reflexivity.
  intros n [<-|[]]. eexists. reflexivity.
Defined.

(** X19.  When every name of a directory can be [stat]ed, [read-file]
    lists one entry per name, in [readdir] order, each with its name
    and its path joined to the directory. *)
Theorem read_file_listing_complete rt t filePath stats names :
  statSync t filePath = Returned stats ->
  st_isDirectory stats = true ->
  readdirSync t filePath = Returned names ->
  (forall n, In n names ->
             exists st, statSync t (join rt [filePath; n]) = Returned st) ->
  exists files,
    read_file rt t filePath = Returned (ReadDirectory files) /\
    map entry_name files = names /\
    map entry_path files = map (fun n => join rt [filePath; n]) names.
Proof.
  intros Hs Hd Hr Hall. unfold read_file.
  rewrite Hs. simpl. rewrite Hd, Hr. simpl.
  assert (H : exists files,
             mapR (describeEntry rt t filePath) names = Returned files /\
             map entry_name files = names /\
             map entry_path files =
               map (fun n => join rt [filePath; n]) names).
  { clear Hr. induction names as [|n names IH]; simpl.
    - exists []. auto.
    - destruct (Hall n) as [st Hst]; [now left|].
      destruct IH as (files & Hm & Hn & Hp);
        [intros m Hm; apply Hall; now right|].
      unfold describeEntry at 1. rewrite Hst. simpl. rewrite Hm. simpl.
      eexists. split; [reflexivity|]. simpl. now rewrite Hn, Hp. }
  destruct H as (files & -> & Hn & Hp). simpl. eauto.
Qed.

(** An instance: a directory with two plain files. *)
Lemma read_file_listing_complete_witness :
  exists files,
    read_file plainRuntime plainTree (Js.lit "/data") =
      Returned (ReadDirectory files) /\
    map entry_name files = [Js.lit "a.txt"; Js.lit "b.txt"] /\
    map entry_path files =
      map (fun n => join plainRuntime [Js.lit "/data"; n])
          [Js.lit "a.txt"; Js.lit "b.txt"].
Proof.
  apply (@read_file_listing_complete plainRuntime plainTree (Js.lit "/data")
           (mkStats true 64 0) [Js.lit "a.txt"; Js.lit "b.txt"]);
    try reflexivity.
  intros n [<-|[<-|[]]]; eexists; reflexivity.
Defined.

(* ================================================================= *)
(** ** Exit notifications after a kill or a spawn error *)

(** X20.  [kill-session] does not silence the exit notification: in
    every reachable state, after a session has been killed and removed
    from the registry, the exit its process then reports still reaches
    the listener, which sends the ['session-closed'] message for the
    killed session's id if the window is there. *)
Theorem exit_after_kill_still_notified h a a' w sessionId s code signal :
  reachable w ->
  Js.get (sessions w) sessionId = Some s ->
  kill_raises a (process s) None = None ->
  let w1 := snd (kill_session a sessionId w) in
  let w2 := step h a' (exitEvent (type s) (process s) code signal) w1 in
  Js.get (sessions w1) sessionId = None /\
  trace w2 =
    trace w1 ++
    (if windowAlive w
     then [SendSessionClosed (mkSessionClosed sessionId code None)]
     else []).
Proof.
  intros Hr Hs Hk. cbv zeta.
  rewrite (kill_session_known a sessionId w Hs Hk). cbn [snd].
  destruct (reachable_wired Hr) as [Hw _].
  rewrite Forall_forall in Hw. specialize (Hw _ (get_in _ _ Hs)).
  simpl in Hw.
  split; [simpl; apply get_delete_same|].
  rewrite (@exitEvent_step h a' (process s) (type s) sessionId code signal).
  - reflexivity.
  - exact Hw.
Qed.

(** An instance: the session of [oneSession], killed, then exiting on
    signal. *)
Lemma exit_after_kill_still_notified_witness :
  let w := oneSession true in
  let s := mkSession 0 ready pty in
  let w1 := snd (kill_session quietAdapter (Js.toString clock0) w) in
  let w2 := step bareHost quietAdapter
                 (exitEvent (type s) (process s) None (Some 15%Z)) w1 in
  Js.get (sessions w1) (Js.toString clock0) = None /\
  trace w2 =
    trace w1 ++
    (if windowAlive w
     then [SendSessionClosed (mkSessionClosed (Js.toString clock0) None None)]
     else []).
Proof.
  apply (@exit_after_kill_still_notified bareHost quietAdapter quietAdapter
           (oneSession true) (Js.toString clock0) (mkSession 0 ready pty)
           None (Some 15%Z)).
  - exact (reach_step bareHost quietAdapter (CreateSession clock0)
             (reach_step bareHost quietAdapter CreateWindow
                (reach_initial true))).
  - reflexivity.
  - reflexivity.
Defined.

(** X21.  On the pipe backend a process that emits ['error'] and then
    ['close'] is reported twice: with the window there, two
    ['session-closed'] messages are sent for its session id, the first
    with code -1 and the error message, the second with the close
    code. *)
Theorem error_then_close_notifies_twice h a h' a' w p sessionId error code :
  listenerOf (listeners w) p = Some (mkClosure spawn sessionId) ->
  windowAlive w = true ->
  trace (step h' a' (ChildClose p code) (step h a (ChildError p error) w)) =
  trace w ++
  [ SendSessionClosed
      (mkSessionClosed sessionId (Some (-1)%Z) (Some (message error)));
    SendSessionClosed (mkSessionClosed sessionId code None) ].
Proof.
  intros Hl Hw. unfold step at 2. simpl.
  rewrite (@dispatch_run _ _ _ _ _ Hl eq_refl), onError_run, Hw. cbn [snd].
  rewrite (@exitEvent_step h' a' p spawn sessionId code None).
  - unfold windowAlive in *. simpl. rewrite Hw. simpl.
    now rewrite <- app_assoc.
  - exact Hl.
Qed.

(** An instance: the pipe-backend process of [oneSession]. *)
Lemma error_then_close_notifies_twice_witness :
  trace (step bareHost quietAdapter (ChildClose 0 (Some (-2)%Z))
           (step bareHost quietAdapter
                 (ChildError 0 (mkError (Js.lit "spawn /bin/sh ENOENT")))
                 (oneSession false))) =
  trace (oneSession false) ++
  [ SendSessionClosed
      (mkSessionClosed (Js.toString clock0) (Some (-1)%Z)
                       (Some (Js.lit "spawn /bin/sh ENOENT")));
    SendSessionClosed
      (mkSessionClosed (Js.toString clock0) (Some (-2)%Z) None) ].
Proof.
  apply (@error_then_close_notifies_twice bareHost quietAdapter
           bareHost quietAdapter (oneSession false) 0 (Js.toString clock0)
           (mkError (Js.lit "spawn /bin/sh ENOENT")) (Some (-2)%Z));
    reflexivity.
Defined.
